(** * pactl-http: the volume / mute HTTP bridge of r4dio

    A shallow embedding of [homebridge/pactl-http.py] and the properties of
    its request pipeline: the mixer adapter ([run], [get_volume], [get_mute],
    [set_volume], [set_mute]) and the dispatcher [Handler.handle_request].

    Text is a list of code points below 256 ([ascii]): the request path is
    decoded by [http.server] as ISO-8859-1, and the character classes of
    Python ([str.isspace], decimal digits, [str.lower]) are written out for
    that range.  The interpreter's optional cap on the number of digits that
    [int] converts is not part of the model. *)

From Stdlib Require Import List ZArith Lia Bool Ascii String.
From Stdlib Require Import DecimalString DecimalPos.
Import ListNotations.

Definition str := list ascii.
Coercion list_ascii_of_string : string >-> list.

Open Scope string_scope.
Open Scope list_scope.
Open Scope Z_scope.

(** ** Python's character classes on code points 0..255 *)

Module Py.

Definition ord (c : ascii) : N := N_of_ascii c.

(** [Py_UNICODE_ISSPACE]: what [str.strip], [str.split] and the regular
    expression class [\s] call white space. *)
Definition isspace (c : ascii) : bool :=
  let n := ord c in
  ((9 <=? n) && (n <=? 13) || (28 <=? n) && (n <=? 31) || (n =? 32)
   || (n =? 133) || (n =? 160))%N.

(** [Py_UNICODE_ISDECIMAL]: the class [\d], and the digits [int] accepts. *)
Definition isdecimal (c : ascii) : bool :=
  let n := ord c in ((48 <=? n) && (n <=? 57))%N.

Definition digit_value (c : ascii) : Z := Z.of_N (ord c) - 48.

(** [str.lower] on one code point. *)
Definition lower_char (c : ascii) : ascii :=
  let n := ord c in
  if ((65 <=? n) && (n <=? 90)
      || (192 <=? n) && (n <=? 222) && negb (n =? 215))%N
  then ascii_of_N (n + 32) else c.

Definition lower (s : str) : str := map lower_char s.

(** ** String operations used by the server *)

Definition char_eqb (a b : ascii) : bool := Ascii.eqb a b.

Fixpoint str_eqb (a b : str) : bool :=
  match a, b with
  | [], [] => true
  | x :: a', y :: b' => char_eqb x y && str_eqb a' b'
  | _, _ => false
  end.

(** [s.startswith(p)] *)
Fixpoint startswith (p s : str) : bool :=
  match p, s with
  | [], _ => true
  | x :: p', y :: s' => char_eqb x y && startswith p' s'
  | _ :: _, [] => false
  end.

(** [needle in s] for strings: the needle starts at some position of [s]. *)
Fixpoint contains (needle s : str) : bool :=
  startswith needle s ||
  match s with
  | [] => false
  | _ :: s' => contains needle s'
  end.

(** [s.lstrip(chars)], [s.rstrip(chars)] and [s.strip()] with the set of
    characters to drop given as a predicate. *)
Fixpoint lstrip_by (p : ascii -> bool) (s : str) : str :=
  match s with
  | [] => []
  | c :: s' => if p c then lstrip_by p s' else s
  end.

Fixpoint rstrip_by (p : ascii -> bool) (s : str) : str :=
  match s with
  | [] => []
  | c :: s' =>
      match rstrip_by p s' with
      | [] => if p c then [] else [c]
      | r => c :: r
      end
  end.

Definition strip (s : str) : str := lstrip_by isspace (rstrip_by isspace s).

Definition rstrip (chars s : str) : str :=
  rstrip_by (fun c => existsb (char_eqb c) chars) s.

(** [s.split(sep)] for a one-character separator: never the empty list. *)
Fixpoint split (sep : ascii) (s : str) : list str :=
  match s with
  | [] => [[]]
  | c :: s' =>
      if char_eqb c sep then [] :: split sep s'
      else match split sep s' with
           | [] => [[c]]
           | h :: t => (c :: h) :: t
           end
  end.

(** [l[-1]] on the result of [split]. *)
Definition last_item (l : list str) : str := last l [].

(** [sep.join(l)] *)
Fixpoint join (sep : str) (l : list str) : str :=
  match l with
  | [] => []
  | [x] => x
  | x :: l' => x ++ sep ++ join sep l'
  end.

Definition newline : ascii := ascii_of_N 10.

(** [str(n)] for an integer. *)
Definition str_of_int (n : Z) : str :=
  list_ascii_of_string (NilZero.string_of_int (Z.to_int n)).

(** ** [int(s)] for a string, base 10

    White space around the literal is dropped, one sign is allowed, and the
    digits may be grouped by single underscores that stand between two
    digits. *)
Fixpoint int_digits (prev_underscore : bool) (acc : Z) (s : str) : option Z :=
  match s with
  | [] => if prev_underscore then None else Some acc
  | c :: s' =>
      if isdecimal c then int_digits false (10 * acc + digit_value c) s'
      else if char_eqb c "_" then
             if prev_underscore then None else int_digits true acc s'
           else None
  end.

Definition int_unsigned (s : str) : option Z :=
  match s with
  | c :: _ => if isdecimal c then int_digits false 0 s else None
  | [] => None
  end.

Definition int (s : str) : option Z :=
  match strip s with
  | "+"%char :: r => int_unsigned r
  | "-"%char :: r => option_map Z.opp (int_unsigned r)
  | t => int_unsigned t
  end.

End Py.

(** ** The regular expressions the server uses

    Python's [re] matches by backtracking: a pattern is tried at each start
    position from the left, and a repetition is greedy, giving characters
    back one at a time when the rest of the pattern fails.  The patterns of
    this program are sequences of character classes, each taken once or
    repeated. *)

Module Re.

Inductive quantifier := Once | Star | Plus.

Record atom := Atom {
  accepts : ascii -> bool;
  quant : quantifier;
  captured : bool
}.

Definition pattern := list atom.

Definition literal (c : ascii) : atom := Atom (Py.char_eqb c) Once false.

(** Greedy repetition of a class: take one more character when possible,
    and fall back to what was taken so far when the continuation fails. *)
Fixpoint greedy {R : Type} (cls : ascii -> bool) (k : str -> str -> option R)
         (taken s : str) : option R :=
  match s with
  | c :: s' =>
      if cls c then
        match greedy cls k (taken ++ [c]) s' with
        | Some r => Some r
        | None => k taken s
        end
      else k taken s
  | [] => k taken s
  end.

(** [match_here p s]: the groups captured when [p] matches a prefix of [s]. *)
Fixpoint match_here (p : pattern) (s : str) : option (list str) :=
  match p with
  | [] => Some []
  | a :: p' =>
      let k (taken rest : str) :=
        option_map (fun gs => if captured a then taken :: gs else gs)
                   (match_here p' rest) in
      match quant a with
      | Once =>
          match s with
          | c :: s' => if accepts a c then k [c] s' else None
          | [] => None
          end
      | Star => greedy (accepts a) k [] s
      | Plus =>
          match s with
          | c :: s' => if accepts a c then greedy (accepts a) k [c] s' else None
          | [] => None
          end
      end
  end.

(** [re.search(p, s)]: the leftmost match. *)
Fixpoint search (p : pattern) (s : str) : option (list str) :=
  match match_here p s with
  | Some gs => Some gs
  | None =>
      match s with
      | [] => None
      | _ :: s' => search p s'
      end
  end.

(** [m.group(n)] for [n >= 1]. *)
Definition group (gs : list str) (n : nat) : str := nth (n - 1)%nat gs [].

End Re.

(** [r"/\s*(\d+)%"] *)
Definition volume_re : Re.pattern :=
  [ Re.literal "/";
    Re.Atom Py.isspace Re.Star false;
    Re.Atom Py.isdecimal Re.Plus true;
    Re.literal "%" ].

(** ** JSON bodies: [json.dumps(obj, separators=(",", ":"))] *)

Module Json.

Inductive value :=
| JInt (n : Z)
| JBool (b : bool)
| JStr (s : str).

(** A dict literal, in insertion order. *)
Definition object := list (str * value).

Definition quote : ascii := ascii_of_N 34.
Definition backslash : ascii := ascii_of_N 92.

Definition hex_digit (n : N) : ascii :=
  nth (N.to_nat n) (list_ascii_of_string "0123456789abcdef") "0"%char.

(** One character of a string under [ensure_ascii]: the short escapes, and
    [\u00xx] for everything outside the printable range. *)
Definition escape_char (c : ascii) : str :=
  let n := Py.ord c in
  if (n =? 34)%N then [backslash; quote]
  else if (n =? 92)%N then [backslash; backslash]
  else if (n =? 8)%N then [backslash; "b"%char]
  else if (n =? 12)%N then [backslash; "f"%char]
  else if (n =? 10)%N then [backslash; "n"%char]
  else if (n =? 13)%N then [backslash; "r"%char]
  else if (n =? 9)%N then [backslash; "t"%char]
  else if ((32 <=? n) && (n <=? 126))%N then [c]
  else [backslash; "u"%char; "0"%char; "0"%char;
        hex_digit (n / 16)%N; hex_digit (n mod 16)%N].

Definition dumps_str (s : str) : str :=
  [quote] ++ flat_map escape_char s ++ [quote].

Definition dumps_value (v : value) : str :=
  match v with
  | JInt n => Py.str_of_int n
  | JBool true => "true"
  | JBool false => "false"
  | JStr s => dumps_str s
  end.

Definition dumps (o : object) : str :=
  "{" ++ Py.join "," (map (fun kv => dumps_str (fst kv) ++ ":" ++ dumps_value (snd kv)) o)
      ++ "}".

End Json.

(** ** Responses, subprocess results, exceptions *)

Record response := Response {
  status : Z;
  headers : list (str * str);
  body : str
}.

(** What [Handler.send_json(code, obj)] writes: the status, the two headers
    the handler sets itself, and the encoded body. *)
Definition json_response (code : Z) (obj : Json.object) : response :=
  let b := Json.dumps obj in
  Response code
           [ ("Content-Type" : str, "application/json" : str);
             ("Content-Length" : str, Py.str_of_int (Z.of_nat (List.length b))) ]
           b.

(** How [subprocess.run(cmd, capture_output=True, text=True, timeout=5)]
    ends: the process exits, the timeout expires, or the call itself raises
    because the program cannot be started ([msg] is the text of the
    error). *)
Inductive completed :=
| Exited (returncode : Z) (stdout stderr : str)
| TimedOut
| Failed (msg : str).

Inductive exn :=
| RuntimeError (msg : str)
| ValueError (msg : str)
| TimeoutExpired (cmd : list str) (timeout : Z)
| OSError (msg : str).

Inductive result (A : Type) :=
| Ok (a : A)
| Raise (e : exn).
Arguments Ok {A} a.
Arguments Raise {A} e.

(** ** A stand-in for the mixer

    The audio utility is an external program.  [Fake] is a small mixer that
    answers the four [pactl] commands the server issues, in the utility's
    output format; it gives the properties below concrete instances. *)

Module Fake.

Record mixer := Mixer { volume : Z; muted : bool }.

Definition volume_report (v : Z) : str :=
  "Volume: front-left: " ++ Py.str_of_int (v * 65536 / 100) ++ " /  "
    ++ Py.str_of_int v ++ "% / -18.06 dB" ++ [Py.newline].

Definition mute_report (m : bool) : str :=
  "Mute: " ++ (if m then "yes" : str else "no" : str) ++ [Py.newline].

Definition usage : completed := Exited 1 "" "Invalid command".

Definition pactl (cmd : list str) (w : mixer) : completed * mixer :=
  match cmd with
  | [prog; sub; _] =>
      if negb (Py.str_eqb prog "pactl") then (usage, w)
      else if Py.str_eqb sub "get-sink-volume"
      then (Exited 0 (volume_report (volume w)) "", w)
      else if Py.str_eqb sub "get-sink-mute"
      then (Exited 0 (mute_report (muted w)) "", w)
      else (usage, w)
  | [prog; sub; _; arg] =>
      if negb (Py.str_eqb prog "pactl") then (usage, w)
      else if Py.str_eqb sub "set-sink-volume"
      then match Py.int (Py.rstrip "%" arg) with
           | Some v => (Exited 0 "" "", Mixer v (muted w))
           | None => (usage, w)
           end
      else if Py.str_eqb sub "set-sink-mute"
      then (Exited 0 "" "", Mixer (volume w) (Py.str_eqb arg "1"))
      else (usage, w)
  | _ => (usage, w)
  end.

(** A utility that never answers, and one that is not installed. *)
Definition hung (cmd : list str) (w : mixer) : completed * mixer :=
  (TimedOut, w).

Definition absent (cmd : list str) (w : mixer) : completed * mixer :=
  (Failed "[Errno 2] No such file or directory: 'pactl'", w).

(** [repr] of a string that needs no escaping. *)
Definition repr (s : str) : str := "'" ++ s ++ "'".

(** The default of [PACTL_SINK]. *)
Definition sink : str := "@DEFAULT_SINK@".

(** A utility that answers every command with the same text. *)
Definition saying (text : str) (cmd : list str) (w : unit) : completed * unit :=
  (Exited 0 text "", w).

End Fake.

(** ** The vocabulary of the specification *)

(** A percentage token of a status text: a slash, any white space, one or
    more digits and a percent sign, standing between [pre] and [post]. *)
Definition token_at (text pre ws ds post : str) : Prop :=
  text = pre ++ "/" ++ ws ++ ds ++ "%" ++ post
  /\ Forall (fun c => Py.isspace c = true) ws
  /\ ds <> []
  /\ Forall (fun c => Py.isdecimal c = true) ds.

Definition has_token (text : str) : Prop :=
  exists pre ws ds post, token_at text pre ws ds post.

(** The first token: no token starts further left. *)
Definition first_token (text pre ws ds post : str) : Prop :=
  token_at text pre ws ds post
  /\ forall pre' ws' ds' post',
       token_at text pre' ws' ds' post' -> (List.length pre <= List.length pre')%nat.

(** The number a string of digits denotes. *)
Definition decimal_value (ds : str) : Z :=
  fold_left (fun acc c => 10 * acc + Py.digit_value c) ds 0.

(** The same letter, in either case. *)
Definition same_letter (c l : ascii) : Prop :=
  c = l \/ (Py.ord c + 32 = Py.ord l)%N.

(** [word], written in lower-case letters, occurs in [text] in any case. *)
Definition occurs_ignoring_case (word text : str) : Prop :=
  exists pre mid post,
    text = pre ++ mid ++ post /\ Forall2 same_letter mid word.

(** [q] is [p] without its trailing slashes. *)
Definition stripped_of (p q : str) : Prop :=
  (exists k, p = q ++ repeat "/"%char k)
  /\ forall q', q <> q' ++ ["/"%char].

Definition starts_with (pre s : str) : Prop := exists rest, s = pre ++ rest.

(** The final "/"-delimited segment of a path. *)
Definition final_segment (path seg : str) : Prop :=
  (exists pre, path = pre ++ "/" ++ seg) /\ ~ In "/"%char seg.

(** Saturation of a requested volume at the ends of the range. *)
Definition clamped (v : Z) : Z :=
  if v <? 0 then 0 else if 100 <? v then 100 else v.

(** A subprocess call that did not end with exit status 0, and the
    exception it becomes. *)
Definition call_failed (r : completed) : Prop :=
  match r with
  | Exited returncode _ _ => returncode <> 0
  | TimedOut => True
  | Failed _ => True
  end.

Definition failure_of (cmd : list str) (r : completed) : exn :=
  match r with
  | Exited _ _ stderr =>
      RuntimeError ("Command failed: " ++ Py.join " " cmd ++ [Py.newline]
                      ++ Py.strip stderr)
  | TimedOut => TimeoutExpired cmd 5
  | Failed msg => OSError msg
  end.

(** The stripped path selects one of the four routes. *)
Definition route_matched (q : str) : Prop :=
  q = "/api/volume" \/ q = "/api/mute"
  \/ starts_with "/api/volume/" q \/ starts_with "/api/mute/" q.

(** A character that JSON text may carry as it is: printable ASCII. *)
Definition printable (c : ascii) : Prop := (32 <= Py.ord c <= 126)%N.

(** ** Configuration, read once at import *)

(** [os.environ.get(key, default)] on an environment given as a lookup. *)
Definition environ_get (environ : str -> option str) (key default : str) : str :=
  match environ key with
  | Some v => v
  | None => default
  end.


Definition SINK_of (environ : str -> option str) : str :=
  environ_get environ "PACTL_SINK" "@DEFAULT_SINK@".

(** ** The server *)

Section Server.

(** The state of the audio system, and one run of the utility on it:
    [subprocess.run(cmd, capture_output=True, text=True, timeout=5)]. *)
Context {W : Type}.
Variable exec : list str -> W -> completed * W.

(** [PACTL_SINK], read once at start. *)
Variable SINK : str.

(** Python's [repr] on strings, used in error messages. *)
Variable repr : str -> str.

(** What a request does: the mixer it leaves, the subprocess calls it made
    with their outcomes, and the responses it wrote, each in order. *)
Record state := State {
  mixer : W;
  calls : list (list str * completed);
  sent : list response
}.

Definition start (w : W) : state := State w [] [].

Definition M (A : Type) : Type := state -> result A * state.

Definition ret {A : Type} (a : A) : M A := fun s => (Ok a, s).

Definition raise {A : Type} (e : exn) : M A := fun s => (Raise e, s).

Definition bind {A B : Type} (m : M A) (k : A -> M B) : M B :=
  fun s =>
    match m s with
    | (Ok a, s') => k a s'
    | (Raise e, s') => (Raise e, s')
    end.

(** [try: m except Exception as e: h e] *)
Definition try_except {A : Type} (m : M A) (h : exn -> M A) : M A :=
  fun s =>
    match m s with
    | (Ok a, s') => (Ok a, s')
    | (Raise e, s') => h e s'
    end.

Notation "x <- m ;; k" := (bind m (fun x => k))
  (at level 61, m at next level, right associativity).
Notation "m ;;; k" := (bind m (fun _ => k))
  (at level 61, right associativity).

(** [str(e)] *)
Definition str_of_exn (e : exn) : str :=
  match e with
  | RuntimeError msg => msg
  | ValueError msg => msg
  | TimeoutExpired cmd timeout =>
      "Command '" ++ ("[" ++ Py.join ", " (map repr cmd) ++ "]")
        ++ "' timed out after " ++ Py.str_of_int timeout ++ " seconds"
  | OSError msg => msg
  end.

(** [int(s)] as a computation. *)
Definition int_of_str (s : str) : M Z :=
  match Py.int s with
  | Some n => ret n
  | None =>
      raise (ValueError ("invalid literal for int() with base 10: " ++ repr s))
  end.

Definition run (cmd : list str) : M str :=
  fun s =>
    let (r, w) := exec cmd (mixer s) in
    let s' := State w (calls s ++ [(cmd, r)]) (sent s) in
    match r with
    | Exited returncode stdout stderr =>
        if negb (returncode =? 0)
        then (Raise (RuntimeError ("Command failed: " ++ Py.join " " cmd
                                     ++ [Py.newline] ++ Py.strip stderr)), s')
        else (Ok (Py.strip stdout), s')
    | TimedOut => (Raise (TimeoutExpired cmd 5), s')
    | Failed msg => (Raise (OSError msg), s')
    end.

Definition get_volume : M Z :=
  out <- run [ "pactl" : str; "get-sink-volume" : str; SINK ] ;;
  match Re.search volume_re out with
  | None => raise (RuntimeError ("Could not parse volume: " ++ repr out))
  | Some m => int_of_str (Re.group m 1)
  end.

Definition get_mute : M bool :=
  out <- run [ "pactl" : str; "get-sink-mute" : str; SINK ] ;;
  ret (Py.contains "yes" (Py.lower out)).

Definition set_volume (pct : Z) : M Z :=
  let pct := Z.max 0 (Z.min 100 pct) in
  run [ "pactl" : str; "set-sink-volume" : str; SINK; Py.str_of_int pct ++ "%" ] ;;;
  ret pct.

Definition set_mute (muted : bool) : M unit :=
  run [ "pactl" : str; "set-sink-mute" : str; SINK;
        if muted then "1" : str else "0" : str ] ;;;
  ret tt.

Definition send_json (code : Z) (obj : Json.object) : M unit :=
  fun s => (Ok tt, State (mixer s) (calls s) (sent s ++ [json_response code obj])).

Definition send_err (msg : str) : M unit :=
  send_json 500 [ ("error" : str, Json.JStr msg) ].

(** The body of the [try] in [Handler.handle_request].  Writing to the log
    and to the socket is taken to succeed. *)
Definition dispatch (path : str) : M unit :=
  if Py.str_eqb path "/api/volume" then
    v <- get_volume ;;
    m <- get_mute ;;
    send_json 200 [ ("volume" : str, Json.JInt v); ("mute" : str, Json.JBool m) ]
  else if Py.str_eqb path "/api/mute" then
    m <- get_mute ;;
    send_json 200 [ ("mute" : str, Json.JBool m) ]
  else if Py.startswith "/api/volume/" path then
    pct <- int_of_str (Py.last_item (Py.split "/" path)) ;;
    v <- set_volume pct ;;
    send_json 200 [ ("volume" : str, Json.JInt v) ]
  else if Py.startswith "/api/mute/" path then
    let val := Py.last_item (Py.split "/" path) in
    let muted := existsb (Py.str_eqb val) [ "1" : str; "true" : str; "yes" : str ] in
    set_mute muted ;;;
    send_json 200 [ ("mute" : str, Json.JBool muted) ]
  else
    send_json 404 [ ("error" : str, Json.JStr "not found") ].

Definition handle_request (self_path : str) : M unit :=
  let path := Py.rstrip "/" self_path in
  try_except (dispatch path) (fun e => send_err (str_of_exn e)).

(** A request served on mixer [w]. *)
Definition serve (w : W) (self_path : str) : state :=
  snd (handle_request self_path (start w)).

(** What a computation leaves when the [try] body is over: nothing was sent
    if it raised, and a subprocess call that failed is the last call made
    and is the exception that came out. *)
Definition orderly {A : Type} (out : result A * state) : Prop :=
  (forall e, fst out = Raise e -> sent (snd out) = [])
  /\ forall pre c o post,
       calls (snd out) = pre ++ (c, o) :: post -> call_failed o ->
       post = [] /\ fst out = Raise (failure_of c o).

(** The command lines the server can issue: the two queries, a volume
    between 0 and 100 per cent, and a mute flag. *)
Definition known_command (cmd : list str) : Prop :=
  cmd = [ "pactl" : str; "get-sink-volume" : str; SINK ]
  \/ cmd = [ "pactl" : str; "get-sink-mute" : str; SINK ]
  \/ (exists v, 0 <= v <= 100
                /\ cmd = [ "pactl" : str; "set-sink-volume" : str; SINK;
                           Py.str_of_int v ++ "%" ])
  \/ cmd = [ "pactl" : str; "set-sink-mute" : str; SINK; "1" : str ]
  \/ cmd = [ "pactl" : str; "set-sink-mute" : str; SINK; "0" : str ].

(** The commands the adapter issues. *)
Local Abbreviation get_volume_cmd :=
  [ "pactl" : str; "get-sink-volume" : str; SINK ].
Local Abbreviation get_mute_cmd :=
  [ "pactl" : str; "get-sink-mute" : str; SINK ].
Local Abbreviation set_volume_cmd v :=
  [ "pactl" : str; "set-sink-volume" : str; SINK; Py.str_of_int v ++ "%" ].
Local Abbreviation set_mute_cmd b :=
  [ "pactl" : str; "set-sink-mute" : str; SINK;
    if b then "1" : str else "0" : str ].

(** * Properties *)

(** ** Sample runs of the string operations *)

Example int_plain : Py.int "50" = Some 50. Proof. reflexivity. Qed.
Example int_signed : Py.int "-5" = Some (-5). Proof. reflexivity. Qed.
Example int_grouped : Py.int " 1_000 " = Some 1000. Proof. reflexivity. Qed.
Example int_bad1 : Py.int "5_" = None. Proof. reflexivity. Qed.
Example int_bad2 : Py.int "5__0" = None. Proof. reflexivity. Qed.
Example int_bad3 : Py.int "" = None. Proof. reflexivity. Qed.
Example int_bad4 : Py.int "50%" = None. Proof. reflexivity. Qed.
Example str_of_int_150 : Py.str_of_int 150 = "150". Proof. reflexivity. Qed.
Example split_path :
  Py.split "/" "/api/volume/extra/50" = [ "" : str; "api" : str; "volume" : str; "extra" : str; "50" : str ].
Proof. reflexivity. Qed.
Example rstrip_path : Py.rstrip "/" "/api/mute/yes//" = "/api/mute/yes".
Proof. reflexivity. Qed.
Example strip_out : Py.strip "  Mute: no
" = "Mute: no".
Proof. reflexivity. Qed.

(** * Facts about the string operations *)

Ltac by_cases_on_char c :=
  destruct c as [[] [] [] [] [] [] [] []];
  vm_compute in *; try congruence; auto.

Lemma char_eqb_eq (a b : ascii) : Py.char_eqb a b = true <-> a = b.
Proof. apply Ascii.eqb_eq. Qed.

Lemma char_eqb_refl (a : ascii) : Py.char_eqb a a = true.
Proof. apply Ascii.eqb_refl. Qed.

Lemma char_eqb_neq (a b : ascii) : Py.char_eqb a b = false <-> a <> b.
Proof. apply Ascii.eqb_neq. Qed.

Lemma space_not_slash (c : ascii) :
  Py.isspace c = true -> Py.char_eqb "/" c = false.
Proof. intros H. by_cases_on_char c. Qed.

Lemma space_not_decimal (c : ascii) :
  Py.isspace c = true -> Py.isdecimal c = false.
Proof. intros H. by_cases_on_char c. Qed.

Lemma decimal_not_percent (c : ascii) :
  Py.isdecimal c = true -> Py.char_eqb "%" c = false.
Proof. intros H. by_cases_on_char c. Qed.

Lemma decimal_not_space (c : ascii) :
  Py.isdecimal c = true -> Py.isspace c = false.
Proof. intros H. by_cases_on_char c. Qed.

Lemma str_eqb_eq (a b : str) : Py.str_eqb a b = true <-> a = b.
Proof.
  revert b. induction a as [|x a IH]; intros [|y b]; simpl; split;
    try congruence; try reflexivity.
  - intros H. apply andb_true_iff in H as [Hx Hab].
    apply char_eqb_eq in Hx. apply IH in Hab. congruence.
  - intros H. injection H as -> ->. rewrite char_eqb_refl. simpl.
    now apply IH.
Qed.

Lemma str_eqb_refl (a : str) : Py.str_eqb a a = true.
Proof. now apply str_eqb_eq. Qed.

Lemma str_eqb_neq (a b : str) : a <> b -> Py.str_eqb a b = false.
Proof.
  intros H. destruct (Py.str_eqb a b) eqn:E; [|reflexivity].
  apply str_eqb_eq in E. contradiction.
Qed.

Lemma startswith_iff (p s : str) :
  Py.startswith p s = true <-> starts_with p s.
Proof.
  unfold starts_with. revert s.
  induction p as [|x p IH]; intros s; simpl.
  - split; [intros _; now exists s | reflexivity].
  - destruct s as [|y s].
    + split; [discriminate | intros [r H]; discriminate].
    + rewrite andb_true_iff, char_eqb_eq, IH. split.
      * intros [-> [r ->]]. now exists r.
      * intros [r H]. injection H as -> ->. split; [reflexivity | now exists r].
Qed.

Lemma startswith_app (p r : str) : Py.startswith p (p ++ r) = true.
Proof. apply startswith_iff. now exists r. Qed.

Lemma contains_iff (needle s : str) :
  Py.contains needle s = true <-> exists pre post, s = pre ++ needle ++ post.
Proof.
  induction s as [|c s IH].
  - simpl. rewrite orb_false_r, startswith_iff. split.
    + intros [r H]. now exists [], r.
    + intros [pre [post H]]. destruct pre; [now exists post|discriminate].
  - simpl. rewrite orb_true_iff, startswith_iff, IH. split.
    + intros [[r H] | [pre [post H]]].
      * exists [], r. exact H.
      * exists (c :: pre), post. simpl. now rewrite H.
    + intros [[|x pre] [post H]].
      * left. now exists post.
      * right. injection H as _ H. now exists pre, post.
Qed.

(** Stripping stops at a character that is kept. *)
Lemma lstrip_by_stop (p : ascii -> bool) (a : str) (c : ascii) (r : str) :
  Forall (fun x => p x = true) a -> p c = false ->
  Py.lstrip_by p (a ++ c :: r) = c :: r.
Proof.
  intros Ha Hc. induction Ha as [|x a Hx _ IH]; simpl.
  - now rewrite Hc.
  - now rewrite Hx.
Qed.

Lemma lstrip_by_split (p : ascii -> bool) (s : str) :
  exists a, s = a ++ Py.lstrip_by p s /\ Forall (fun x => p x = true) a.
Proof.
  induction s as [|c s [a [E Ha]]]; simpl.
  - now exists [].
  - destruct (p c) eqn:Hc.
    + exists (c :: a). split; [simpl; now rewrite <- E | now constructor].
    + now exists [].
Qed.

Lemma lstrip_by_keeps (p : ascii -> bool) (x : str) (c : ascii) (r : str) :
  p c = false ->
  exists x', Py.lstrip_by p (x ++ c :: r) = x' ++ c :: r.
Proof.
  intros Hc. induction x as [|a x [x' IH]]; simpl.
  - rewrite Hc. now exists [].
  - destruct (p a); [now exists x' | now exists (a :: x)].
Qed.

Lemma rstrip_by_keeps (p : ascii -> bool) (x : str) (c : ascii) (r : str) :
  p c = false ->
  Py.rstrip_by p (x ++ c :: r) = x ++ c :: Py.rstrip_by p r.
Proof.
  intros Hc. induction x as [|a x IH]; simpl.
  - destruct (Py.rstrip_by p r); [now rewrite Hc | reflexivity].
  - rewrite IH. now destruct x.
Qed.

Lemma rstrip_by_all (p : ascii -> bool) (b : str) :
  Forall (fun x => p x = true) b -> Py.rstrip_by p b = [].
Proof.
  intros H. induction H as [|x b Hx _ IH]; simpl; [reflexivity|].
  now rewrite IH, Hx.
Qed.

Lemma rstrip_by_split (p : ascii -> bool) (s : str) :
  exists b, s = Py.rstrip_by p s ++ b /\ Forall (fun x => p x = true) b.
Proof.
  induction s as [|c s [b [E Hb]]]; simpl.
  - now exists [].
  - destruct (Py.rstrip_by p s) as [|y r] eqn:Er.
    + destruct (p c) eqn:Hc.
      * exists (c :: s). split; [reflexivity|].
        constructor; [exact Hc|]. simpl in E. now rewrite E.
      * exists s. split; [reflexivity|]. simpl in E. now rewrite E.
    + exists b. split; [|exact Hb]. simpl in *. now f_equal.
Qed.

Lemma rstrip_by_last (p : ascii -> bool) (s x : str) (c : ascii) :
  Py.rstrip_by p s = x ++ [c] -> p c = false.
Proof.
  revert x. induction s as [|a s IH]; intros x; simpl.
  - destruct x; discriminate.
  - destruct (Py.rstrip_by p s) as [|y r] eqn:Er.
    + destruct (p a) eqn:Ha.
      * destruct x; discriminate.
      * intros H. destruct x as [|x0 [|x1 x]]; try discriminate.
        injection H as <-. exact Ha.
    + intros H. destruct x as [|x0 x].
      * discriminate.
      * injection H as _ H. now apply (IH x).
Qed.

(** * The matcher on the volume pattern *)

Lemma lstrip_by_head (p : ascii -> bool) (s : str) (c : ascii) (r : str) :
  Py.lstrip_by p s = c :: r -> p c = false.
Proof.
  induction s as [|x s IH]; simpl; [discriminate|].
  destruct (p x) eqn:Hx; [exact IH|].
  intros H. injection H as <- _. exact Hx.
Qed.

(** When the continuation cannot start on a character of the class, a
    greedy repetition keeps the whole run of the class. *)
Lemma greedy_longest {R : Type} (cls : ascii -> bool)
      (k : str -> str -> option R) (a r taken : str) :
  (forall t c r', cls c = true -> k t (c :: r') = None) ->
  Forall (fun c => cls c = true) a ->
  (forall c r', r = c :: r' -> cls c = false) ->
  Re.greedy cls k taken (a ++ r) = k (taken ++ a) r.
Proof.
  intros Hk Ha Hr. revert taken.
  induction Ha as [|c a Hc _ IH]; intros taken.
  - rewrite app_nil_r. simpl. destruct r as [|c r']; [reflexivity|].
    simpl. now rewrite (Hr c r' eq_refl).
  - simpl. rewrite Hc, IH, <- app_assoc. simpl.
    destruct (k (taken ++ c :: a) r); [reflexivity|].
    now apply Hk.
Qed.

Lemma match_here_percent (s : str) :
  Re.match_here [Re.literal "%"] s =
  match s with
  | c :: _ => if Py.char_eqb "%" c then Some [] else None
  | [] => None
  end.
Proof. destruct s as [|c s]; [reflexivity|]. simpl. now destruct (Py.char_eqb "%" c). Qed.

Lemma match_here_digits (s : str) (gs : list str) :
  Re.match_here [Re.Atom Py.isdecimal Re.Plus true; Re.literal "%"] s = Some gs
  <-> exists ds post,
        s = ds ++ "%" ++ post /\ ds <> []
        /\ Forall (fun c => Py.isdecimal c = true) ds /\ gs = [ds].
Proof.
  change (Re.match_here [Re.Atom Py.isdecimal Re.Plus true; Re.literal "%"] s)
    with (match s with
          | c :: s' =>
              if Py.isdecimal c
              then Re.greedy Py.isdecimal
                     (fun taken rest =>
                        option_map (fun gs => taken :: gs)
                                   (Re.match_here [Re.literal "%"] rest))
                     [c] s'
              else None
          | [] => None
          end).
  assert (Hk : forall (t : str) c r', Py.isdecimal c = true ->
             option_map (fun gs : list str => t :: gs)
               (Re.match_here [Re.literal "%"] (c :: r')) = None).
  { intros t c r' Hc. rewrite match_here_percent.
    now rewrite (decimal_not_percent c Hc). }
  split.
  - destruct s as [|c s']; [discriminate|].
    destruct (Py.isdecimal c) eqn:Hc; [|discriminate].
    destruct (lstrip_by_split Py.isdecimal s') as [a [E Ha]].
    rewrite E at 1.
    rewrite greedy_longest; [|exact Hk|exact Ha|apply lstrip_by_head].
    rewrite match_here_percent.
    destruct (Py.lstrip_by Py.isdecimal s') as [|x post] eqn:El; [discriminate|].
    destruct (Py.char_eqb "%" x) eqn:Hx; [|discriminate].
    apply char_eqb_eq in Hx. subst x. simpl. intros H. injection H as <-.
    exists (c :: a), post. repeat split.
    + simpl. now rewrite <- E.
    + discriminate.
    + now constructor.
  - intros [ds [post [-> [Hne [Hds ->]]]]].
    destruct ds as [|c a]; [contradiction|]. inversion Hds as [|? ? Hc Ha]; subst.
    cbn [app]. rewrite Hc.
    rewrite greedy_longest; [|exact Hk|exact Ha|].
    + rewrite match_here_percent. reflexivity.
    + intros x r' H. injection H as <- _. reflexivity.
Qed.

Lemma match_here_volume (s : str) (gs : list str) :
  Re.match_here volume_re s = Some gs
  <-> exists ws ds post,
        s = "/" ++ ws ++ ds ++ "%" ++ post
        /\ Forall (fun c => Py.isspace c = true) ws
        /\ ds <> []
        /\ Forall (fun c => Py.isdecimal c = true) ds
        /\ gs = [ds].
Proof.
  set (tail := [Re.Atom Py.isdecimal Re.Plus true; Re.literal "%"]).
  change (Re.match_here volume_re s)
    with (match s with
          | c :: s' =>
              if Py.char_eqb "/" c
              then option_map (fun gs => gs)
                     (Re.greedy Py.isspace
                        (fun _ rest =>
                           option_map (fun gs => gs) (Re.match_here tail rest))
                        [] s')
              else None
          | [] => None
          end).
  assert (Hk : forall (t : str) c r', Py.isspace c = true ->
             option_map (fun gs : list str => gs)
               (Re.match_here tail (c :: r')) = None).
  { intros t c r' Hc. unfold tail. simpl.
    now rewrite (space_not_decimal c Hc). }
  assert (Hid : forall o : option (list str), option_map (fun gs => gs) o = o)
    by (now intros [x|]).
  split.
  - destruct s as [|c s']; [discriminate|].
    destruct (Py.char_eqb "/" c) eqn:Hc; [|discriminate].
    apply char_eqb_eq in Hc. subst c.
    destruct (lstrip_by_split Py.isspace s') as [a [E Ha]].
    rewrite E at 1.
    rewrite (greedy_longest Py.isspace _ a _ [] Hk Ha (lstrip_by_head _ _)).
    rewrite !Hid. intros H. apply match_here_digits in H.
    destruct H as [ds [post [El [Hne [Hds ->]]]]].
    exists a, ds, post. repeat split; auto.
    simpl. rewrite E. now rewrite El.
  - intros [ws [ds [post [-> [Hws [Hne [Hds ->]]]]]]].
    cbn [app list_ascii_of_string]. rewrite char_eqb_refl.
    rewrite (greedy_longest Py.isspace _ ws _ [] Hk Hws).
    + rewrite !Hid. apply match_here_digits. now exists ds, post.
    + destruct ds as [|d ds']; [contradiction|].
      intros x r' H. injection H as <- _.
      inversion Hds; subst. now apply decimal_not_space.
Qed.

(** * The leftmost match *)

Lemma app_same_length {A : Type} (a b c d : list A) :
  a ++ b = c ++ d -> List.length a = List.length c -> a = c /\ b = d.
Proof.
  revert c. induction a as [|x a IH]; intros [|y c] H L; try discriminate.
  - now split.
  - simpl in H. injection H as -> H. simpl in L. injection L as L.
    destruct (IH c H L) as [-> ->]. now split.
Qed.

Lemma search_none (p : Re.pattern) (t : str) :
  Re.search p t = None
  <-> forall pre rest, t = pre ++ rest -> Re.match_here p rest = None.
Proof.
  induction t as [|c t IH]; simpl.
  - destruct (Re.match_here p []) eqn:E.
    + split; [discriminate|]. intros H. now rewrite (H [] [] eq_refl) in E.
    + split; [|reflexivity]. intros _ pre rest H.
      symmetry in H. apply app_eq_nil in H as [_ ->]. exact E.
  - destruct (Re.match_here p (c :: t)) eqn:E.
    + split; [discriminate|]. intros H.
      now rewrite (H [] (c :: t) eq_refl) in E.
    + rewrite IH. split.
      * intros H [|x pre] rest Hs.
        -- simpl in Hs. now subst rest.
        -- injection Hs as _ Hs. now apply (H pre).
      * intros H pre rest Hs. apply (H (c :: pre)). simpl. now rewrite Hs.
Qed.

Lemma search_some (p : Re.pattern) (t : str) (gs : list str) :
  Re.search p t = Some gs
  <-> exists pre rest,
        t = pre ++ rest /\ Re.match_here p rest = Some gs
        /\ forall pre' rest',
             t = pre' ++ rest' ->
             (List.length pre' < List.length pre)%nat ->
             Re.match_here p rest' = None.
Proof.
  induction t as [|c t IH]; simpl.
  - destruct (Re.match_here p []) eqn:E.
    + split.
      * intros H. exists [], []. repeat split; [congruence|].
        intros pre' rest' _ L. simpl in L. lia.
      * intros [pre [rest [Ht [Hm _]]]].
        symmetry in Ht. apply app_eq_nil in Ht as [_ ->]. congruence.
    + split; [discriminate|].
      intros [pre [rest [Ht [Hm _]]]].
      symmetry in Ht. apply app_eq_nil in Ht as [_ ->]. congruence.
  - destruct (Re.match_here p (c :: t)) eqn:E.
    + split.
      * intros H. exists [], (c :: t). repeat split; [congruence|].
        intros pre' rest' _ L. simpl in L. lia.
      * intros [[|x pre] [rest [Ht [Hm Hmin]]]].
        -- simpl in Ht. subst rest. congruence.
        -- rewrite (Hmin [] (c :: t) eq_refl) in E; [discriminate|].
           simpl. lia.
    + rewrite IH. split.
      * intros [pre [rest [Ht [Hm Hmin]]]].
        exists (c :: pre), rest. repeat split.
        -- simpl. now rewrite Ht.
        -- exact Hm.
        -- intros [|x pre'] rest' Ht' L.
           ++ simpl in Ht'. now subst rest'.
           ++ injection Ht' as _ Ht'. apply (Hmin pre' rest' Ht').
              simpl in L. lia.
      * intros [[|x pre] [rest [Ht [Hm Hmin]]]].
        -- simpl in Ht. subst rest. congruence.
        -- injection Ht as _ Ht. exists pre, rest. repeat split; auto.
           intros pre' rest' Ht' L. apply (Hmin (c :: pre') rest').
           ++ simpl. now rewrite Ht'.
           ++ simpl. lia.
Qed.

Lemma token_at_match (text pre ws ds post : str) :
  token_at text pre ws ds post ->
  Re.match_here volume_re ("/" ++ ws ++ ds ++ "%" ++ post) = Some [ds].
Proof.
  intros [_ [Hws [Hne Hds]]]. apply match_here_volume.
  now exists ws, ds, post.
Qed.

Lemma match_token (pre rest : str) (gs : list str) :
  Re.match_here volume_re rest = Some gs ->
  exists ws ds post, token_at (pre ++ rest) pre ws ds post /\ gs = [ds]
                     /\ rest = "/" ++ ws ++ ds ++ "%" ++ post.
Proof.
  intros H. apply match_here_volume in H.
  destruct H as [ws [ds [post [-> [Hws [Hne [Hds ->]]]]]]].
  exists ws, ds, post. repeat split; auto.
Qed.

Lemma search_volume_none (text : str) :
  Re.search volume_re text = None <-> ~ has_token text.
Proof.
  rewrite search_none. split.
  - intros H [pre [ws [ds [post Ht]]]].
    pose proof (token_at_match _ _ _ _ _ Ht) as Hm.
    destruct Ht as [Ht _]. rewrite (H pre _ Ht) in Hm. discriminate.
  - intros H pre rest ->.
    destruct (Re.match_here volume_re rest) as [gs|] eqn:E; [|reflexivity].
    destruct (match_token pre rest gs E) as [ws [ds [post [Ht _]]]].
    exfalso. apply H. now exists pre, ws, ds, post.
Qed.

Lemma search_volume_first (text : str) (gs : list str) :
  Re.search volume_re text = Some gs
  <-> exists pre ws ds post, first_token text pre ws ds post /\ gs = [ds].
Proof.
  rewrite search_some. split.
  - intros [pre [rest [-> [Hm Hmin]]]].
    destruct (match_token pre rest gs Hm) as [ws [ds [post [Ht [-> Hr]]]]].
    exists pre, ws, ds, post. split; [|reflexivity]. split; [exact Ht|].
    intros pre' ws' ds' post' Ht'.
    destruct (Nat.le_gt_cases (List.length pre) (List.length pre')) as [L|L];
      [exact L|].
    pose proof (token_at_match _ _ _ _ _ Ht') as Hm'.
    destruct Ht' as [Ht' _]. rewrite (Hmin pre' _ Ht' L) in Hm'. discriminate.
  - intros [pre [ws [ds [post [[Ht Hmin] ->]]]]].
    exists pre, ("/" ++ ws ++ ds ++ "%" ++ post). repeat split.
    + apply Ht.
    + now apply (token_at_match text pre).
    + intros pre' rest' Hs L.
      destruct (Re.match_here volume_re rest') as [gs|] eqn:E; [|reflexivity].
      destruct (match_token pre' rest' gs E) as [ws' [ds' [post' [Ht' _]]]].
      rewrite <- Hs in Ht'. apply Hmin in Ht'. lia.
Qed.

(** White space around the text does not change what is found. *)
Lemma match_here_rstrip (s : str) :
  Re.match_here volume_re (Py.rstrip_by Py.isspace s)
  = Re.match_here volume_re s.
Proof.
  destruct (Re.match_here volume_re s) as [gs|] eqn:E.
  - apply match_here_volume in E.
    destruct E as [ws [ds [post [-> [Hws [Hne [Hds ->]]]]]]].
    apply match_here_volume.
    exists ws, ds, (Py.rstrip_by Py.isspace post). repeat split; auto.
    replace ("/" ++ ws ++ ds ++ "%" ++ post)
      with (("/" ++ ws ++ ds) ++ "%"%char :: post)
      by (now rewrite <- !app_assoc).
    rewrite rstrip_by_keeps by reflexivity.
    now rewrite <- !app_assoc.
  - destruct (Re.match_here volume_re (Py.rstrip_by Py.isspace s)) as [gs|] eqn:E';
      [|reflexivity].
    apply match_here_volume in E'.
    destruct E' as [ws [ds [post [Hs [Hws [Hne [Hds ->]]]]]]].
    destruct (rstrip_by_split Py.isspace s) as [b [Hb _]].
    assert (Re.match_here volume_re s = Some [ds]) as E2.
    { apply match_here_volume. exists ws, ds, (post ++ b).
      repeat split; auto. rewrite Hb at 1. rewrite Hs.
      now rewrite <- !app_assoc. }
    congruence.
Qed.

Lemma search_cons (p : Re.pattern) (c : ascii) (s : str) :
  Re.search p (c :: s)
  = match Re.match_here p (c :: s) with
    | Some gs => Some gs
    | None => Re.search p s
    end.
Proof. reflexivity. Qed.

Lemma match_here_not_slash (c : ascii) (s : str) :
  Py.char_eqb "/" c = false -> Re.match_here volume_re (c :: s) = None.
Proof.
  intros Hc. destruct (Re.match_here volume_re (c :: s)) as [gs|] eqn:E;
    [|reflexivity].
  apply match_here_volume in E. destruct E as [ws [ds [post [E _]]]].
  injection E as -> _. now rewrite char_eqb_refl in Hc.
Qed.

Lemma search_rstrip (s : str) :
  Re.search volume_re (Py.rstrip_by Py.isspace s) = Re.search volume_re s.
Proof.
  induction s as [|c s IH]; [reflexivity|].
  pose proof (match_here_rstrip (c :: s)) as Hm.
  cbn [Py.rstrip_by] in Hm |- *. revert Hm IH.
  destruct (Py.rstrip_by Py.isspace s) as [|y r].
  - destruct (Py.isspace c) eqn:Hc; intros Hm IH.
    + rewrite search_cons, <- IH.
      now rewrite (match_here_not_slash c s (space_not_slash c Hc)).
    + now rewrite (search_cons _ c []), (search_cons _ c s), Hm, IH.
  - intros Hm IH.
    now rewrite (search_cons _ c (y :: r)), (search_cons _ c s), Hm, IH.
Qed.

Lemma search_lstrip (s : str) :
  Re.search volume_re (Py.lstrip_by Py.isspace s) = Re.search volume_re s.
Proof.
  induction s as [|c s IH]; [reflexivity|].
  simpl Py.lstrip_by. destruct (Py.isspace c) eqn:Hc; [|reflexivity].
  rewrite IH, search_cons.
  now rewrite (match_here_not_slash c s (space_not_slash c Hc)).
Qed.

Lemma search_strip (s : str) :
  Re.search volume_re (Py.strip s) = Re.search volume_re s.
Proof. unfold Py.strip. now rewrite search_lstrip, search_rstrip. Qed.

(** * Reading and printing integers *)

Lemma int_unfold (s : str) :
  Py.int s
  = match Py.strip s with
    | c :: r =>
        if Py.char_eqb c "+" then Py.int_unsigned r
        else if Py.char_eqb c "-" then option_map Z.opp (Py.int_unsigned r)
        else Py.int_unsigned (c :: r)
    | [] => Py.int_unsigned []
    end.
Proof.
  unfold Py.int. destruct (Py.strip s) as [|c r]; [reflexivity|].
  destruct c as [[] [] [] [] [] [] [] []]; reflexivity.
Qed.

Lemma int_digits_all (ds : str) (acc : Z) :
  Forall (fun c => Py.isdecimal c = true) ds ->
  Py.int_digits false acc ds
  = Some (fold_left (fun a c => 10 * a + Py.digit_value c) ds acc).
Proof.
  intros H. revert acc. induction H as [|c ds Hc _ IH]; intros acc; simpl.
  - reflexivity.
  - now rewrite Hc, IH.
Qed.

Lemma rstrip_by_none (p : ascii -> bool) (s : str) :
  Forall (fun c => p c = false) s -> Py.rstrip_by p s = s.
Proof.
  intros H. induction H as [|c s Hc _ IH]; simpl; [reflexivity|].
  rewrite IH. destruct s; [now rewrite Hc | reflexivity].
Qed.

Lemma lstrip_by_none (p : ascii -> bool) (s : str) :
  Forall (fun c => p c = false) s -> Py.lstrip_by p s = s.
Proof. intros H. destruct H as [|c s Hc _]; simpl; [|rewrite Hc]; reflexivity. Qed.

Lemma strip_digits (ds : str) :
  Forall (fun c => Py.isdecimal c = true) ds -> Py.strip ds = ds.
Proof.
  intros H. unfold Py.strip.
  assert (Forall (fun c => Py.isspace c = false) ds) as Hn.
  { eapply Forall_impl; [|exact H]. intros c. apply decimal_not_space. }
  now rewrite rstrip_by_none, lstrip_by_none.
Qed.

Lemma decimal_not_sign (c : ascii) :
  Py.isdecimal c = true ->
  Py.char_eqb c "+" = false /\ Py.char_eqb c "-" = false.
Proof. intros H. by_cases_on_char c. Qed.

(** [int] never fails on what [\d+] captured. *)
Lemma int_of_digits (ds : str) :
  Forall (fun c => Py.isdecimal c = true) ds -> ds <> [] ->
  Py.int ds = Some (decimal_value ds).
Proof.
  intros H Hne. rewrite int_unfold, (strip_digits ds H).
  destruct ds as [|d r]; [contradiction|].
  inversion H as [|? ? Hd Hr]; subst.
  destruct (decimal_not_sign d Hd) as [-> ->].
  unfold Py.int_unsigned. rewrite Hd. now apply int_digits_all.
Qed.

Lemma decimal_value_nonneg_from (ds : str) (acc : Z) :
  Forall (fun c => Py.isdecimal c = true) ds -> 0 <= acc ->
  0 <= fold_left (fun a c => 10 * a + Py.digit_value c) ds acc.
Proof.
  intros H. revert acc.
  induction H as [|c ds Hc _ IH]; intros acc Hacc; cbn [fold_left].
  - exact Hacc.
  - apply IH. unfold Py.isdecimal in Hc. unfold Py.digit_value.
    apply andb_true_iff in Hc as [Hlo _]. apply N.leb_le in Hlo. lia.
Qed.

(** The characters of a decimal numeral. *)
Lemma uint_chars_decimal (d : Decimal.uint) :
  Forall (fun c => Py.isdecimal c = true)
         (list_ascii_of_string (NilEmpty.string_of_uint d)).
Proof. induction d; simpl; constructor; auto. Qed.

Lemma uint_chars_value_acc (d : Decimal.uint) (acc : positive) :
  fold_left (fun a c => 10 * a + Py.digit_value c)
            (list_ascii_of_string (NilEmpty.string_of_uint d)) (Z.pos acc)
  = Z.pos (Pos.of_uint_acc d acc).
Proof.
  revert acc. induction d; intros acc;
    cbn [NilEmpty.string_of_uint list_ascii_of_string fold_left Pos.of_uint_acc];
    [reflexivity| ..];
    rewrite <- IHd; f_equal;
    match goal with
    | |- context [Py.digit_value ?c] =>
        let x := fresh "x" in
        set (x := Py.digit_value c); vm_compute in x; subst x; lia
    end.
Qed.

Lemma uint_chars_value (d : Decimal.uint) :
  fold_left (fun a c => 10 * a + Py.digit_value c)
            (list_ascii_of_string (NilEmpty.string_of_uint d)) 0
  = Z.of_N (Pos.of_uint d).
Proof.
  induction d;
    cbn [NilEmpty.string_of_uint list_ascii_of_string fold_left Pos.of_uint];
    [reflexivity | exact IHd | ..];
    apply (uint_chars_value_acc d).
Qed.

Lemma str_of_int_digits (v : Z) :
  0 <= v ->
  Forall (fun c => Py.isdecimal c = true) (Py.str_of_int v)
  /\ Py.str_of_int v <> []
  /\ decimal_value (Py.str_of_int v) = v.
Proof.
  intros Hv. destruct v as [|p|p]; [| |lia].
  - repeat split; [repeat constructor | discriminate].
  - unfold Py.str_of_int, decimal_value. simpl Z.to_int.
    unfold NilZero.string_of_int, NilZero.string_of_uint.
    pose proof (Unsigned.to_uint_nonnil p) as Hnn.
    pose proof (uint_chars_decimal (Pos.to_uint p)) as Hd.
    pose proof (uint_chars_value (Pos.to_uint p)) as Hval.
    rewrite Unsigned.of_to in Hval.
    destruct (Pos.to_uint p) eqn:E; try contradiction;
      (repeat split; [exact Hd | discriminate | exact Hval]).
Qed.

(** * Paths *)

Lemma slash_set (c : ascii) :
  existsb (Py.char_eqb c) "/" = Py.char_eqb c "/".
Proof. simpl. apply orb_false_r. Qed.

Lemma rstrip_stripped (p q : str) : Py.rstrip "/" p = q <-> stripped_of p q.
Proof.
  unfold Py.rstrip, stripped_of. split.
  - intros <-. split.
    + destruct (rstrip_by_split (fun c => existsb (Py.char_eqb c) "/") p)
        as [b [E Hb]].
      exists (List.length b). rewrite E at 1. f_equal.
      clear E. induction Hb as [|x b Hx _ IH]; [reflexivity|].
      rewrite slash_set in Hx. apply char_eqb_eq in Hx. subst x.
      simpl. now rewrite <- IH.
    + intros q' E. apply rstrip_by_last in E. discriminate.
  - intros [[k ->] Hq].
    assert (Hall : Forall (fun c => existsb (Py.char_eqb c) "/" = true)
                          (repeat "/"%char k)).
    { clear. induction k; simpl; constructor; auto. }
    induction q as [|c x _] using rev_ind.
    + simpl. now apply rstrip_by_all.
    + rewrite <- app_assoc. simpl app. rewrite rstrip_by_keeps.
      * now rewrite (rstrip_by_all _ _ Hall).
      * rewrite slash_set. apply char_eqb_neq. intros ->. now apply (Hq x).
Qed.

Lemma split_nonempty (sep : ascii) (s : str) : Py.split sep s <> [].
Proof.
  destruct s as [|c s]; simpl; [discriminate|].
  destruct (Py.char_eqb c sep); [discriminate|].
  destruct (Py.split sep s); discriminate.
Qed.

Lemma split_whole (sep : ascii) (s : str) :
  ~ In sep s -> Py.split sep s = [s].
Proof.
  induction s as [|c s IH]; simpl; [reflexivity|]. intros H.
  destruct (Py.char_eqb c sep) eqn:E.
  - apply char_eqb_eq in E. exfalso. apply H. now left.
  - rewrite IH; [reflexivity|]. intros Hin. apply H. now right.
Qed.

Lemma split_at_sep (sep : ascii) (pre rest : str) :
  Py.split sep (pre ++ sep :: rest) = Py.split sep pre ++ Py.split sep rest.
Proof.
  induction pre as [|c pre IH]; simpl.
  - now rewrite char_eqb_refl.
  - destruct (Py.char_eqb c sep); rewrite IH; [reflexivity|].
    pose proof (split_nonempty sep pre).
    now destruct (Py.split sep pre).
Qed.

(** The code's [path.split("/")[-1]] is the final segment. *)
Lemma last_item_final (path seg : str) :
  final_segment path seg -> Py.last_item (Py.split "/" path) = seg.
Proof.
  intros [[pre ->] Hseg]. unfold Py.last_item.
  simpl app. rewrite split_at_sep, (split_whole _ _ Hseg).
  apply last_last.
Qed.

(** A path has one final segment. *)
Lemma final_segment_unique (path seg seg' : str) :
  final_segment path seg -> final_segment path seg' -> seg = seg'.
Proof.
  intros H H'. apply last_item_final in H, H'. congruence.
Qed.

(** * Letters *)

Lemma lower_char_yes (c l : ascii) :
  In l (list_ascii_of_string "yes") ->
  Py.lower_char c = l <-> same_letter c l.
Proof.
  intros [<- | [<- | [<- | []]]];
    destruct c as [[] [] [] [] [] [] [] []];
    (split;
     [ intros H; vm_compute in H; try discriminate H;
       first [ left; reflexivity | right; reflexivity ]
     | intros [H | H]; vm_compute in H; try discriminate H; reflexivity ]).
Qed.

Lemma letter_not_space (c l : ascii) :
  In l (list_ascii_of_string "yes") -> same_letter c l -> Py.isspace c = false.
Proof.
  intros [<- | [<- | [<- | []]]];
    destruct c as [[] [] [] [] [] [] [] []];
    intros [H | H]; vm_compute in H; try discriminate H; reflexivity.
Qed.

Lemma strip_split (text : str) :
  exists a b, text = a ++ Py.strip text ++ b.
Proof.
  unfold Py.strip.
  destruct (rstrip_by_split Py.isspace text) as [b [E _]].
  destruct (lstrip_by_split Py.isspace (Py.rstrip_by Py.isspace text))
    as [a [E' _]].
  exists a, b. rewrite app_assoc, <- E'. exact E.
Qed.

Lemma lower_yes_iff (mid : str) :
  Py.lower mid = "yes" <-> Forall2 same_letter mid "yes".
Proof.
  unfold Py.lower. split.
  - intros H. destruct mid as [|c1 [|c2 [|c3 [|c4 mid]]]]; try discriminate.
    simpl in H. injection H as H1 H2 H3.
    assert (forall c l, In l (list_ascii_of_string "yes") ->
              Py.lower_char c = l -> same_letter c l) as Hs
      by (intros c l Hin; apply lower_char_yes; exact Hin).
    simpl. constructor; [apply Hs; simpl; auto|].
    constructor; [apply Hs; simpl; auto|].
    constructor; [apply Hs; simpl; auto|]. constructor.
  - intros H. inversion H as [|c1 ? m1 ? S1 H1]; subst.
    inversion H1 as [|c2 ? m2 ? S2 H2]; subst.
    inversion H2 as [|c3 ? m3 ? S3 H3]; subst.
    inversion H3; subst. simpl.
    apply lower_char_yes in S1, S2, S3; simpl; auto.
    now rewrite S1, S2, S3.
Qed.

(** The mute test of the code against the wording of the specification. *)
Lemma contains_yes (text : str) :
  Py.contains "yes" (Py.lower (Py.strip text)) = true
  <-> occurs_ignoring_case "yes" text.
Proof.
  rewrite contains_iff. unfold occurs_ignoring_case. split.
  - intros [pre [post H]]. unfold Py.lower in H.
    apply map_eq_app in H as [pre' [rest [E [_ H]]]].
    apply map_eq_app in H as [mid [post' [-> [Hmid _]]]].
    destruct (strip_split text) as [a [b Ht]].
    exists (a ++ pre'), mid, (post' ++ b). split.
    + rewrite Ht at 1. rewrite E. now rewrite <- !app_assoc.
    + now apply lower_yes_iff.
  - intros [pre [mid [post [-> Hmid]]]].
    pose proof Hmid as Hl. apply lower_yes_iff in Hl.
    inversion Hmid as [|c1 ? m1 ? S1 H1]; subst.
    inversion H1 as [|c2 ? m2 ? S2 H2]; subst.
    inversion H2 as [|c3 ? m3 ? S3 H3]; subst.
    inversion H3; subst.
    apply letter_not_space in S1, S3; simpl; auto.
    unfold Py.strip.
    replace (pre ++ c1 :: c2 :: c3 :: post)
      with ((pre ++ [c1; c2]) ++ c3 :: post)
      by (now rewrite <- app_assoc).
    rewrite (rstrip_by_keeps Py.isspace (pre ++ [c1; c2]) c3 post S3).
    rewrite <- app_assoc.
    destruct (lstrip_by_keeps Py.isspace pre c1
                ([c2] ++ c3 :: Py.rstrip_by Py.isspace post) S1) as [x' Hx].
    cbn [app] in Hx |- *. rewrite Hx.
    exists (Py.lower x'), (Py.lower (Py.rstrip_by Py.isspace post)).
    unfold Py.lower in *. rewrite map_app. f_equal.
    change (c1 :: c2 :: c3 :: Py.rstrip_by Py.isspace post)
      with ([c1; c2; c3] ++ Py.rstrip_by Py.isspace post).
    now rewrite map_app, Hl.
Qed.

Lemma clamp_is_clamped (v : Z) : Z.max 0 (Z.min 100 v) = clamped v.
Proof.
  unfold clamped.
  destruct (v <? 0) eqn:E1; [apply Z.ltb_lt in E1; lia|].
  apply Z.ltb_ge in E1.
  destruct (100 <? v) eqn:E2; [apply Z.ltb_lt in E2 | apply Z.ltb_ge in E2]; lia.
Qed.

Lemma clamped_range (v : Z) : 0 <= clamped v <= 100.
Proof. rewrite <- clamp_is_clamped. lia. Qed.

(** * The adapter and the dispatcher *)

(** One call of [run], by the way the subprocess ends. *)
Lemma run_exited_ok (cmd : list str) (s : state) (out err : str) (w' : W) :
  exec cmd (mixer s) = (Exited 0 out err, w') ->
  run cmd s
  = (Ok (Py.strip out),
     State w' (calls s ++ [(cmd, Exited 0 out err)]) (sent s)).
Proof. intros H. unfold run. now rewrite H. Qed.

Lemma run_failed (cmd : list str) (s : state) (r : completed) (w' : W) :
  exec cmd (mixer s) = (r, w') -> call_failed r ->
  run cmd s
  = (Raise (failure_of cmd r), State w' (calls s ++ [(cmd, r)]) (sent s)).
Proof.
  intros H F. unfold run. rewrite H.
  destruct r as [rc out err| |msg]; try reflexivity.
  simpl in F. apply Z.eqb_neq in F. now rewrite F.
Qed.

Lemma call_failed_dec (r : completed) :
  {call_failed r} + {exists out err, r = Exited 0 out err}.
Proof.
  destruct r as [rc out err| |msg]; simpl; auto.
  destruct (Z.eq_dec rc 0) as [->|N]; [right; eauto | left; exact N].
Qed.


Lemma run_cases (cmd : list str) (s : state) :
  (exists out err w',
      exec cmd (mixer s) = (Exited 0 out err, w')
      /\ run cmd s
         = (Ok (Py.strip out),
            State w' (calls s ++ [(cmd, Exited 0 out err)]) (sent s)))
  \/ (exists r w',
         exec cmd (mixer s) = (r, w') /\ call_failed r
         /\ run cmd s
            = (Raise (failure_of cmd r),
               State w' (calls s ++ [(cmd, r)]) (sent s))).
Proof.
  destruct (exec cmd (mixer s)) as [r w'] eqn:E.
  destruct (call_failed_dec r) as [F | [out [err ->]]].
  - right. exists r, w'. repeat split; auto. now apply run_failed.
  - left. exists out, err, w'. split; [reflexivity|]. now apply run_exited_ok.
Qed.

Lemma exited_ok_not_failed (out err : str) : ~ call_failed (Exited 0 out err).
Proof. simpl. intros H. now apply H. Qed.

(** [get_volume] once the utility has answered. *)
Lemma get_volume_answered (s : state) (text err : str) (w' : W) :
  exec get_volume_cmd (mixer s) = (Exited 0 text err, w') ->
  get_volume s
  = (match Re.search volume_re text with
     | None =>
         Raise (RuntimeError ("Could not parse volume: "
                                ++ repr (Py.strip text)))
     | Some m =>
         match Py.int (Re.group m 1) with
         | Some n => Ok n
         | None =>
             Raise (ValueError ("invalid literal for int() with base 10: "
                                  ++ repr (Re.group m 1)))
         end
     end,
     State w' (calls s ++ [(get_volume_cmd, Exited 0 text err)]) (sent s)).
Proof.
  intros H. unfold get_volume, bind.
  rewrite (run_exited_ok _ _ _ _ _ H), search_strip.
  destruct (Re.search volume_re text) as [m|]; [|reflexivity].
  unfold int_of_str. now destruct (Py.int (Re.group m 1)).
Qed.

Lemma first_token_found (text pre ws ds post : str) :
  first_token text pre ws ds post ->
  Re.search volume_re text = Some [ds]
  /\ Py.int (Re.group [ds] 1) = Some (decimal_value ds).
Proof.
  intros H. split.
  - apply search_volume_first. now exists pre, ws, ds, post.
  - destruct H as [[_ [_ [Hne Hds]]] _]. now apply int_of_digits.
Qed.

Lemma get_mute_answered (s : state) (text err : str) (w' : W) :
  exec get_mute_cmd (mixer s) = (Exited 0 text err, w') ->
  get_mute s
  = (Ok (Py.contains "yes" (Py.lower (Py.strip text))),
     State w' (calls s ++ [(get_mute_cmd, Exited 0 text err)]) (sent s)).
Proof.
  intros H. unfold get_mute, bind.
  now rewrite (run_exited_ok _ _ _ _ _ H).
Qed.

Lemma set_volume_run (v : Z) (s : state) :
  set_volume v s
  = match run (set_volume_cmd (clamped v)) s with
    | (Ok _, s') => (Ok (clamped v), s')
    | (Raise e, s') => (Raise e, s')
    end.
Proof.
  unfold set_volume, bind. rewrite clamp_is_clamped.
  now destruct (run (set_volume_cmd (clamped v)) s) as [[x|e] s'].
Qed.

Lemma set_mute_run (b : bool) (s : state) :
  set_mute b s
  = match run (set_mute_cmd b) s with
    | (Ok _, s') => (Ok tt, s')
    | (Raise e, s') => (Raise e, s')
    end.
Proof.
  unfold set_mute, bind.
  now destruct (run (set_mute_cmd b) s) as [[x|e] s'].
Qed.


Ltac trace_cases H :=
  let pre := fresh "pre" in
  match type of H with
  | _ = ?p ++ _ :: _ =>
      destruct p as [|? [|? [|? pre]]]; simpl in H;
      try discriminate H; injection H as H; subst;
      repeat match goal with
             | X : _ = _ ++ _ :: _ |- _ => destruct pre; discriminate X
             | X : (_, _) = (_, _) |- _ => injection X as X; subst
             | X : [] = _ :: _ |- _ => discriminate X
             | X : _ :: _ = [] |- _ => discriminate X
             end
  end.

Ltac trace_done :=
  try (now split);
  try (exfalso;
       match goal with
       | Hf : call_failed (Exited 0 _ _) |- _ => now apply Hf
       end).

Ltac step_run :=
  match goal with
  | |- context [run ?cmd ?st] =>
      let R := fresh "R" in
      destruct (run_cases cmd st)
        as [(?out & ?err & ?w1 & ?E & R) | (?r & ?w1 & ?E & ?F & R)];
      rewrite R; clear R
  end.

Ltac finish_orderly :=
  split; simpl;
  [ intros; try reflexivity; try discriminate
  | let H := fresh "H" in
    let Hf := fresh "Hf" in
    intros ? ? ? ? H Hf; trace_cases H; trace_done ].

Lemma dispatch_orderly (q : str) (w : W) : orderly (dispatch q (start w)).
Proof.
  unfold dispatch.
  destruct (Py.str_eqb q "/api/volume");
    [|destruct (Py.str_eqb q "/api/mute");
      [|destruct (Py.startswith "/api/volume/" q);
        [|destruct (Py.startswith "/api/mute/" q)]]].
  - unfold bind at 1. unfold get_volume, bind at 1.
    step_run; [|finish_orderly].
    destruct (Re.search volume_re (Py.strip out)) as [m|]; [|finish_orderly].
    unfold int_of_str.
    destruct (Py.int (Re.group m 1)) as [n|]; [|finish_orderly].
    unfold ret, bind, get_mute, bind.
    step_run; finish_orderly.
  - unfold bind, get_mute, bind.
    step_run; finish_orderly.
  - unfold bind at 1. unfold int_of_str.
    destruct (Py.int (Py.last_item (Py.split "/" q))) as [n|];
      [|finish_orderly].
    unfold ret, bind. rewrite set_volume_run.
    step_run; finish_orderly.
  - unfold bind. rewrite set_mute_run.
    step_run; finish_orderly.
  - finish_orderly.
Qed.





(** ** The mixer adapter *)

(** C2: for every integer [v], [set_volume v] saturates [v] at 0 and 100
    (0 below the range, 100 above it, [v] itself inside), issues exactly one
    set-volume command carrying the saturated value, returns that value when
    the command succeeds, and raises only when the command itself fails,
    whatever [v] is. *)
Theorem set_volume_clamps (w : W) (v : Z) :
  let c := clamped v in
  let cmd := set_volume_cmd c in
  let out := set_volume v (start w) in
  0 <= c <= 100
  /\ calls (snd out) = [(cmd, fst (exec cmd w))]
  /\ mixer (snd out) = snd (exec cmd w)
  /\ (forall stdout stderr,
        fst (exec cmd w) = Exited 0 stdout stderr -> fst out = Ok c)
  /\ (forall e,
        fst out = Raise e ->
        call_failed (fst (exec cmd w)) /\ e = failure_of cmd (fst (exec cmd w))).
Proof.
  intros c cmd out. subst out cmd.
  split; [apply clamped_range|].
  rewrite set_volume_run. fold c.
  destruct (run_cases (set_volume_cmd c) (start w))
    as [(so & se & w1 & E & R) | (r & w1 & E & F & R)];
    rewrite R; change (mixer (start w)) with w in E; rewrite E; simpl.
  - repeat split; auto; discriminate.
  - repeat split; auto.
    + intros so se ->. now apply exited_ok_not_failed in F.
    + congruence.
Qed.


(** C4: once the utility has answered with [text], [get_mute] returns true
    exactly when the word yes occurs in [text], in any mix of upper and
    lower case; any other answer gives false. *)
Theorem get_mute_yes (w w' : W) (text err : str) :
  exec get_mute_cmd w = (Exited 0 text err, w') ->
  exists b,
    fst (get_mute (start w)) = Ok b
    /\ (b = true <-> occurs_ignoring_case "yes" text).
Proof.
  intros H. rewrite (get_mute_answered (start w) text err w' H).
  eexists. split; [reflexivity|]. apply contains_yes.
Qed.


(** ** The dispatcher *)

Lemma serve_stripped (w : W) (p q : str) :
  stripped_of p q ->
  serve w p
  = snd (try_except (dispatch q) (fun e => send_err (str_of_exn e)) (start w)).
Proof.
  intros H. apply rstrip_stripped in H.
  unfold serve, handle_request. now rewrite H.
Qed.

Lemma dispatch_set_volume (q seg : str) :
  starts_with "/api/volume/" q -> final_segment q seg ->
  dispatch q
  = bind (int_of_str seg)
      (fun pct =>
         bind (set_volume pct)
           (fun v => send_json 200 [ ("volume" : str, Json.JInt v) ])).
Proof.
  intros [rest ->] Hseg. unfold dispatch.
  rewrite (last_item_final _ _ Hseg). reflexivity.
Qed.

Lemma dispatch_set_mute (q seg : str) :
  starts_with "/api/mute/" q -> final_segment q seg ->
  dispatch q
  = bind (set_mute (existsb (Py.str_eqb seg)
                      [ "1" : str; "true" : str; "yes" : str ]))
      (fun _ =>
         send_json 200
           [ ("mute" : str,
              Json.JBool (existsb (Py.str_eqb seg)
                            [ "1" : str; "true" : str; "yes" : str ])) ]).
Proof.
  intros [rest ->] Hseg. unfold dispatch.
  rewrite (last_item_final _ _ Hseg). reflexivity.
Qed.

Lemma dispatch_not_found (q : str) :
  q <> "/api/volume" -> q <> "/api/mute" ->
  ~ starts_with "/api/volume/" q -> ~ starts_with "/api/mute/" q ->
  dispatch q = send_json 404 [ ("error" : str, Json.JStr "not found") ].
Proof.
  intros H1 H2 H3 H4. unfold dispatch.
  rewrite (str_eqb_neq _ _ H1), (str_eqb_neq _ _ H2).
  destruct (Py.startswith "/api/volume/" q) eqn:E3;
    [apply startswith_iff in E3; contradiction|].
  destruct (Py.startswith "/api/mute/" q) eqn:E4;
    [apply startswith_iff in E4; contradiction|].
  reflexivity.
Qed.

Lemma mute_tokens (seg : str) :
  existsb (Py.str_eqb seg) [ "1" : str; "true" : str; "yes" : str ] = true
  <-> seg = "1" \/ seg = "true" \/ seg = "yes".
Proof.
  simpl existsb. rewrite !orb_true_iff, !str_eqb_eq. intuition discriminate.
Qed.




Lemma serve_set_mute (w : W) (p q seg : str) :
  stripped_of p q -> starts_with "/api/mute/" q -> final_segment q seg ->
  let b := existsb (Py.str_eqb seg) [ "1" : str; "true" : str; "yes" : str ] in
  let cmd := set_mute_cmd b in
  calls (serve w p) = [(cmd, fst (exec cmd w))]
  /\ mixer (serve w p) = snd (exec cmd w)
  /\ sent (serve w p)
     = [ if call_failed_dec (fst (exec cmd w))
         then json_response 500
                [ ("error" : str,
                   Json.JStr (str_of_exn (failure_of cmd (fst (exec cmd w))))) ]
         else json_response 200 [ ("mute" : str, Json.JBool b) ] ].
Proof.
  intros Hp Hq Hseg b cmd. subst cmd.
  rewrite (serve_stripped w p q Hp), (dispatch_set_mute q seg Hq Hseg).
  fold b. unfold try_except, bind. rewrite set_mute_run.
  step_run; change (mixer (start w)) with w in E; rewrite E; simpl.
  - destruct (call_failed_dec (Exited 0 out err)) as [F|_];
      [now apply exited_ok_not_failed in F | auto].
  - destruct (call_failed_dec r) as [_|[so [se ->]]];
      [auto | now apply exited_ok_not_failed in F].
Qed.

(** C5: on a path that starts with /api/mute/, the mute value is true
    exactly when the final segment is one of 1, true, yes, written so; one
    set-mute command carrying that value is issued, and when it succeeds the
    response is 200 with that value under "mute". *)
Theorem mute_route_tokens (w : W) (p q seg : str) :
  stripped_of p q -> starts_with "/api/mute/" q -> final_segment q seg ->
  exists b : bool,
    (b = true <-> seg = "1" \/ seg = "true" \/ seg = "yes")
    /\ calls (serve w p) = [(set_mute_cmd b, fst (exec (set_mute_cmd b) w))]
    /\ mixer (serve w p) = snd (exec (set_mute_cmd b) w)
    /\ (forall stdout stderr,
          fst (exec (set_mute_cmd b) w) = Exited 0 stdout stderr ->
          sent (serve w p)
          = [json_response 200 [ ("mute" : str, Json.JBool b) ]]).
Proof.
  intros Hp Hq Hseg.
  destruct (serve_set_mute w p q seg Hp Hq Hseg) as [Hc [Hm Hs]].
  eexists. split; [apply mute_tokens|].
  split; [exact Hc|]. split; [exact Hm|].
  intros so se E. rewrite Hs, E.
  destruct (call_failed_dec (Exited 0 so se)) as [F|_];
    [now apply exited_ok_not_failed in F | reflexivity].
Qed.




(** C8: for [v] between 0 and 100, if the mixer accepts the set-volume
    command and then reports [v] in its first percentage token,
    [set_volume v] followed by [get_volume] returns [v]. *)
Theorem volume_round_trip (w w1 w2 : W) (v : Z)
        (so se text err pre ws post : str) :
  0 <= v <= 100 ->
  exec (set_volume_cmd v) w = (Exited 0 so se, w1) ->
  exec get_volume_cmd w1 = (Exited 0 text err, w2) ->
  first_token text pre ws (Py.str_of_int v) post ->
  let s1 := snd (set_volume v (start w)) in
  fst (set_volume v (start w)) = Ok v
  /\ mixer s1 = w1
  /\ fst (get_volume s1) = Ok v.
Proof.
  intros Hv Hset Hget Htok s1. subst s1.
  assert (Hc : clamped v = v).
  { rewrite <- clamp_is_clamped. lia. }
  rewrite set_volume_run, Hc.
  rewrite (run_exited_ok _ (start w) so se w1 Hset). simpl.
  split; [reflexivity|]. split; [reflexivity|].
  match goal with
  | |- fst (get_volume ?s) = _ =>
      rewrite (get_volume_answered s text err w2 Hget)
  end.
  destruct (first_token_found _ _ _ _ _ Htok) as [-> ->]. simpl. f_equal.
  apply str_of_int_digits. lia.
Qed.

(** C9: a path that, without its trailing slashes, is none of the two exact
    routes and starts with none of the two parametrized ones is answered
    with 404 and the body error: not found; no subprocess is run and the
    mixer is left as it was. *)
Theorem unmatched_route_404 (w : W) (p q : str) :
  stripped_of p q ->
  q <> "/api/volume" -> q <> "/api/mute" ->
  ~ starts_with "/api/volume/" q -> ~ starts_with "/api/mute/" q ->
  serve w p
  = State w [] [json_response 404 [ ("error" : str, Json.JStr "not found") ]].
Proof.
  intros Hp H1 H2 H3 H4.
  rewrite (serve_stripped w p q Hp), (dispatch_not_found q H1 H2 H3 H4).
  reflexivity.
Qed.

(** C10: on a path that starts with /api/volume/ whose final segment [int]
    rejects, the conversion fails before [set_volume] is reached: the
    response is 500 with the conversion error, no subprocess is run and the
    mixer is left as it was. *)
Theorem bad_volume_parameter (w : W) (p q seg : str) :
  stripped_of p q -> starts_with "/api/volume/" q -> final_segment q seg ->
  Py.int seg = None ->
  serve w p
  = State w []
      [json_response 500
         [ ("error" : str,
            Json.JStr ("invalid literal for int() with base 10: "
                         ++ repr seg)) ]].
Proof.
  intros Hp Hq Hseg Hn.
  rewrite (serve_stripped w p q Hp), (dispatch_set_volume q seg Hq Hseg).
  unfold try_except, bind, int_of_str. rewrite Hn. reflexivity.
Qed.


(** Whatever the mixer reports, a volume that is read is not negative. *)
Lemma get_volume_nonneg (w : W) (v : Z) :
  fst (get_volume (start w)) = Ok v -> 0 <= v.
Proof.
  unfold get_volume, bind at 1.
  step_run; [|discriminate].
  destruct (Re.search volume_re (Py.strip out)) as [m|] eqn:Em; [|discriminate].
  apply search_volume_first in Em.
  destruct Em as [pre [ws [ds [post [[[_ [_ [Hne Hds]]] _] ->]]]]].
  unfold int_of_str. change (Re.group [ds] 1) with ds.
  rewrite (int_of_digits ds Hds Hne). simpl. intros H. injection H as <-.
  now apply decimal_value_nonneg_from.
Qed.

(** * Further properties of the server *)

(** ** Strings and integers *)

Lemma rstrip_by_padding (p : ascii -> bool) (s b : str) :
  Forall (fun x => p x = true) b ->
  Py.rstrip_by p (s ++ b) = Py.rstrip_by p s.
Proof.
  intros Hb. induction s as [|c s IH]; simpl.
  - now apply rstrip_by_all.
  - now rewrite IH.
Qed.

Lemma last_occurrence (x : ascii) (l : str) :
  In x l -> exists l1 l2, l = l1 ++ x :: l2 /\ ~ In x l2.
Proof.
  induction l as [|c l IH]; [contradiction|]. intros H.
  destruct (in_dec ascii_dec x l) as [Hin|Hout].
  - destruct (IH Hin) as [l1 [l2 [-> H2]]]. now exists (c :: l1), l2.
  - destruct H as [->|H]; [|contradiction]. now exists [], l.
Qed.

Lemma final_segment_exists (q : str) :
  In "/"%char q -> exists seg, final_segment q seg.
Proof.
  intros H. destruct (last_occurrence _ _ H) as [l1 [l2 [-> H2]]].
  exists l2. split; [now exists l1 | exact H2].
Qed.


Lemma str_of_int_neg (p : positive) :
  Py.str_of_int (Z.neg p) = "-"%char :: Py.str_of_int (Z.pos p).
Proof. reflexivity. Qed.

(** The characters of a printed integer: digits, after a minus sign at
    most. *)
Lemma str_of_int_chars (n : Z) :
  Forall (fun c => Py.isdecimal c = true \/ c = "-"%char) (Py.str_of_int n)
  /\ Py.str_of_int n <> [].
Proof.
  assert (Hpos : forall v, 0 <= v ->
            Forall (fun c => Py.isdecimal c = true \/ c = "-"%char)
                   (Py.str_of_int v) /\ Py.str_of_int v <> []).
  { intros v Hv. destruct (str_of_int_digits v Hv) as [Hd [Hne _]].
    split; [|exact Hne]. eapply Forall_impl; [|exact Hd]. now left. }
  destruct n as [|p|p]; try (apply Hpos; lia).
  rewrite str_of_int_neg. destruct (Hpos (Z.pos p)) as [Hd _]; [lia|].
  split; [|discriminate]. constructor; [now right | exact Hd].
Qed.




(** ** Every path through the dispatcher *)

Ltac dispatch_walk q leaf :=
  unfold dispatch;
  destruct (Py.str_eqb q "/api/volume") eqn:Hq1;
    [|destruct (Py.str_eqb q "/api/mute") eqn:Hq2;
      [|destruct (Py.startswith "/api/volume/" q) eqn:Hq3;
        [|destruct (Py.startswith "/api/mute/" q) eqn:Hq4]]];
  [ unfold bind at 1; unfold get_volume, bind at 1;
    step_run;
    [ destruct (Re.search volume_re (Py.strip _)) as [?m|];
      [ unfold int_of_str;
        destruct (Py.int (Re.group _ 1)) as [?n|];
        [ unfold ret, bind, get_mute, bind; step_run; leaf
        | leaf ]
      | leaf ]
    | leaf ]
  | unfold bind, get_mute, bind; step_run; leaf
  | unfold bind at 1; unfold int_of_str;
    destruct (Py.int (Py.last_item (Py.split "/" q))) as [?n|];
    [ unfold ret, bind; rewrite set_volume_run; step_run; leaf
    | leaf ]
  | unfold bind; rewrite set_mute_run; step_run; leaf
  | leaf ].

Ltac solve_known :=
  first
    [ left; reflexivity
    | right; left; reflexivity
    | right; right; left; eexists; split; [apply clamped_range | reflexivity]
    | match goal with
      | |- context [if ?b then _ else _] => destruct b
      end;
      [ right; right; right; left; reflexivity
      | right; right; right; right; reflexivity ] ].

Ltac known_leaf :=
  simpl; split; [repeat (constructor; [solve_known|]); constructor | lia].

Lemma dispatch_commands (q : str) (w : W) :
  match dispatch q (start w) with
  | (_, s') =>
      Forall (fun co => known_command (fst co)) (calls s')
      /\ (List.length (calls s') <= 2)%nat
  end.
Proof. dispatch_walk q known_leaf. Qed.

Ltac solve_matched :=
  unfold route_matched;
  first
    [ left; apply str_eqb_eq; assumption
    | right; left; apply str_eqb_eq; assumption
    | right; right; left; apply startswith_iff; assumption
    | right; right; right; apply startswith_iff; assumption ].

Ltac solve_unmatched :=
  let H := fresh "H" in
  intros [H | [H | [H | H]]];
  [ apply str_eqb_eq in H | apply str_eqb_eq in H
  | apply startswith_iff in H | apply startswith_iff in H ];
  congruence.

Ltac reply_leaf :=
  simpl;
  first
    [ solve_matched
    | eexists; eexists; split; [reflexivity|];
      split;
      [ first [ left; split; [reflexivity | solve_matched]
              | right; split; [reflexivity | solve_unmatched] ]
      | repeat (constructor; [apply exited_ok_not_failed|]); constructor ] ].

(** How the [try] body ends: with one response written, 200 on a route and
    404 off the routes, after calls that all succeeded; or with an
    exception, on a route. *)
Lemma dispatch_reply (q : str) (w : W) :
  match dispatch q (start w) with
  | (Ok _, s') =>
      exists code obj,
        sent s' = [json_response code obj]
        /\ ((code = 200 /\ route_matched q) \/ (code = 404 /\ ~ route_matched q))
        /\ Forall (fun co => ~ call_failed (snd co)) (calls s')
  | (Raise _, _) => route_matched q
  end.
Proof. dispatch_walk q reply_leaf. Qed.

Lemma serve_dispatch (w : W) (p : str) :
  serve w p
  = match dispatch (Py.rstrip "/" p) (start w) with
    | (Ok _, s') => s'
    | (Raise e, s') =>
        State (mixer s') (calls s')
              (sent s' ++ [json_response 500
                             [ ("error" : str, Json.JStr (str_of_exn e)) ]])
    end.
Proof.
  unfold serve, handle_request, try_except.
  now destruct (dispatch (Py.rstrip "/" p) (start w)) as [[u|e] s'].
Qed.

Lemma serve_calls (w : W) (p : str) :
  calls (serve w p) = calls (snd (dispatch (Py.rstrip "/" p) (start w))).
Proof.
  rewrite serve_dispatch.
  now destruct (dispatch (Py.rstrip "/" p) (start w)) as [[u|e] s'].
Qed.

Lemma sent_one_json_response (w : W) (p : str) :
  exists code obj, sent (serve w p) = [json_response code obj].
Proof.
  rewrite serve_dispatch.
  pose proof (dispatch_reply (Py.rstrip "/" p) w) as Hr.
  pose proof (dispatch_orderly (Py.rstrip "/" p) w) as [Hs _].
  destruct (dispatch (Py.rstrip "/" p) (start w)) as [[u|e] s'].
  - destruct Hr as [code [obj [E _]]]. now exists code, obj.
  - simpl in Hs. rewrite (Hs e eq_refl). simpl. eauto.
Qed.

(** X1: whatever the path and whatever the mixer does, a request is answered
    by exactly one response, and its status is 200, 404 or 500. *)
Theorem every_request_one_response (w : W) (p : str) :
  exists code obj,
    sent (serve w p) = [json_response code obj]
    /\ (code = 200 \/ code = 404 \/ code = 500).
Proof.
  rewrite serve_dispatch.
  pose proof (dispatch_reply (Py.rstrip "/" p) w) as Hr.
  pose proof (dispatch_orderly (Py.rstrip "/" p) w) as [Hs _].
  destruct (dispatch (Py.rstrip "/" p) (start w)) as [[u|e] s'].
  - destruct Hr as [code [obj [E [[[-> _]|[-> _]] _]]]];
      eexists; exists obj; (split; [exact E | auto]).
  - simpl in Hs. rewrite (Hs e eq_refl). simpl.
    eexists; eexists; split; [reflexivity | auto].
Qed.

(** X2: a request runs at most two commands, and each is one of the five
    command lines of the adapter: a query of volume or mute, a volume
    between 0 and 100 per cent, or mute 1 or 0.  Nothing else of the path
    reaches a command line. *)
Theorem only_known_commands (w : W) (p : str) :
  Forall (fun co => known_command (fst co)) (calls (serve w p))
  /\ (List.length (calls (serve w p)) <= 2)%nat.
Proof.
  rewrite serve_calls.
  pose proof (dispatch_commands (Py.rstrip "/" p) w) as H.
  now destruct (dispatch (Py.rstrip "/" p) (start w)) as [r s'].
Qed.

(** X3: the response is 404 exactly when the path, without its trailing
    slashes, matches none of the four routes. *)
Theorem not_found_iff_unmatched (w : W) (p q : str) :
  stripped_of p q ->
  (exists r, In r (sent (serve w p)) /\ status r = 404) <-> ~ route_matched q.
Proof.
  intros Hp. apply rstrip_stripped in Hp. rewrite serve_dispatch, Hp.
  pose proof (dispatch_reply q w) as Hr.
  pose proof (dispatch_orderly q w) as [Hs _].
  destruct (dispatch q (start w)) as [[u|e] s'].
  - destruct Hr as [code [obj [E [[[-> Hm]|[-> Hm]] _]]]]; rewrite E; split.
    + intros [r [[<-|[]] Hst]]. discriminate.
    + intros Hn. contradiction.
    + intros _. exact Hm.
    + intros _. eexists. split; [now left | reflexivity].
  - simpl in Hs. rewrite (Hs e eq_refl). simpl. split.
    + intros [r [[<-|[]] Hst]]. discriminate.
    + intros Hn. contradiction.
Qed.

(** X4: a 200 response is sent only when every command the request ran
    exited with status 0. *)
Theorem ok_means_calls_succeeded (w : W) (p : str) (r : response) :
  In r (sent (serve w p)) -> status r = 200 ->
  Forall (fun co => exists out err, snd co = Exited 0 out err)
         (calls (serve w p)).
Proof.
  rewrite serve_dispatch.
  pose proof (dispatch_reply (Py.rstrip "/" p) w) as Hr.
  pose proof (dispatch_orderly (Py.rstrip "/" p) w) as [Hs _].
  destruct (dispatch (Py.rstrip "/" p) (start w)) as [[u|e] s'].
  - intros _ _. destruct Hr as [code [obj [_ [_ Hok]]]].
    eapply Forall_impl; [|exact Hok]. intros [c o] Hf. simpl in *.
    destruct (call_failed_dec o) as [F|H]; [contradiction | exact H].
  - simpl in Hs. rewrite (Hs e eq_refl). simpl.
    intros [<-|[]] Hst. discriminate.
Qed.

(** ** The two reading routes *)



(** X6: on /api/volume, when the volume query fails or its output has no
    percentage token, the mute is not queried: the only call is the volume
    query and the response is 500. *)
Theorem read_volume_stops_at_failure (w w1 : W) (p : str) (r : completed) :
  stripped_of p "/api/volume" ->
  exec get_volume_cmd w = (r, w1) ->
  call_failed r \/ (exists text err, r = Exited 0 text err /\ ~ has_token text) ->
  exists msg,
    serve w p
    = State w1 [(get_volume_cmd, r)]
        [json_response 500 [ ("error" : str, Json.JStr msg) ]].
Proof.
  intros Hp Hv Hr.
  rewrite (serve_stripped w p _ Hp). unfold dispatch.
  change (Py.str_eqb "/api/volume" "/api/volume") with true. cbv iota.
  unfold try_except, bind at 1.
  destruct Hr as [F | [text [err [-> Hn]]]].
  - unfold get_volume, bind. rewrite (run_failed _ (start w) r w1 Hv F).
    simpl. eexists. reflexivity.
  - rewrite (get_volume_answered (start w) text err w1 Hv).
    apply search_volume_none in Hn. rewrite Hn. simpl. eexists. reflexivity.
Qed.

(** X7: on /api/mute, when the query succeeds, the response is 200 with the
    mute state under "mute", true exactly when yes occurs in the answer in
    any case; the query is the only call. *)
Theorem read_mute_route (w w1 : W) (p text err : str) :
  stripped_of p "/api/mute" ->
  exec get_mute_cmd w = (Exited 0 text err, w1) ->
  exists b : bool,
    (b = true <-> occurs_ignoring_case "yes" text)
    /\ serve w p
       = State w1 [(get_mute_cmd, Exited 0 text err)]
           [json_response 200 [ ("mute" : str, Json.JBool b) ]].
Proof.
  intros Hp Hm.
  exists (Py.contains "yes" (Py.lower (Py.strip text))).
  split; [apply contains_yes|].
  rewrite (serve_stripped w p _ Hp). unfold dispatch.
  change (Py.str_eqb "/api/mute" "/api/volume") with false.
  change (Py.str_eqb "/api/mute" "/api/mute") with true. cbv iota.
  unfold try_except, bind.
  rewrite (get_mute_answered (start w) text err w1 Hm). reflexivity.
Qed.

(** ** Paths *)

(** X8: slashes added at the end of a path change nothing: the request is
    served as without them. *)
Theorem trailing_slashes_ignored (w : W) (p : str) (k : nat) :
  serve w (p ++ repeat "/"%char k) = serve w p.
Proof.
  unfold serve, handle_request, Py.rstrip.
  rewrite rstrip_by_padding; [reflexivity|].
  clear. induction k; simpl; constructor; auto.
Qed.

(** X9: on the two parametrized routes the parameter is never empty: the
    stripped path has a final segment, it has at least one character and no
    slash, and it is what [path.split("/")[-1]] returns. *)
Theorem parameter_never_empty (p q : str) :
  stripped_of p q ->
  starts_with "/api/volume/" q \/ starts_with "/api/mute/" q ->
  exists seg,
    final_segment q seg /\ seg <> []
    /\ Py.last_item (Py.split "/" q) = seg.
Proof.
  intros [_ Hq] Hr.
  assert (Hin : In "/"%char q).
  { destruct Hr as [[r ->] | [r ->]]; now left. }
  destruct (final_segment_exists q Hin) as [seg Hseg].
  exists seg. split; [exact Hseg|]. split; [|now apply last_item_final].
  intros ->. destruct Hseg as [[pre E] _]. now apply (Hq pre).
Qed.


(** ** Response bodies *)

Ltac solve_printable := unfold printable, Py.ord; vm_compute; split; discriminate.

Ltac printable_list := repeat (constructor; [solve_printable|]); constructor.

Lemma escape_char_printable (c : ascii) : Forall printable (Json.escape_char c).
Proof.
  destruct c as [[] [] [] [] [] [] [] []]; printable_list.
Qed.

Lemma decimal_printable (c : ascii) :
  Py.isdecimal c = true \/ c = "-"%char -> printable c.
Proof.
  intros [H | ->]; [|solve_printable].
  destruct c as [[] [] [] [] [] [] [] []];
    try (vm_compute in H; discriminate H); solve_printable.
Qed.

Lemma str_of_int_printable (n : Z) : Forall printable (Py.str_of_int n).
Proof.
  destruct (str_of_int_chars n) as [H _].
  eapply Forall_impl; [|exact H]. apply decimal_printable.
Qed.

Lemma dumps_str_printable (s : str) : Forall printable (Json.dumps_str s).
Proof.
  unfold Json.dumps_str. rewrite !Forall_app. split; [|split].
  - printable_list.
  - apply Forall_flat_map. rewrite Forall_forall. intros c _.
    apply escape_char_printable.
  - printable_list.
Qed.

Lemma join_printable (sep : str) (l : list str) :
  Forall printable sep -> Forall (Forall printable) l ->
  Forall printable (Py.join sep l).
Proof.
  intros Hsep Hl. induction Hl as [|x l Hx Hl IH]; [constructor|].
  destruct l as [|y l]; [exact Hx|].
  change (Py.join sep (x :: y :: l)) with (x ++ sep ++ Py.join sep (y :: l)).
  rewrite !Forall_app. auto.
Qed.

Lemma dumps_printable (obj : Json.object) : Forall printable (Json.dumps obj).
Proof.
  unfold Json.dumps. rewrite !Forall_app. split; [|split].
  - printable_list.
  - apply join_printable; [printable_list|].
    rewrite Forall_map, Forall_forall. intros [k v] _. cbn [fst snd].
    rewrite !Forall_app. split; [|split].
    + apply dumps_str_printable.
    + printable_list.
    + destruct v as [n|[]|s]; simpl.
      * apply str_of_int_printable.
      * printable_list.
      * printable_list.
      * apply dumps_str_printable.
  - printable_list.
Qed.

(** X11: the body of every response is made of printable ASCII characters
    only, whatever the error text it carries (the message of a failed
    command quotes the standard error of the utility), and the
    Content-Length header gives its length. *)
Theorem bodies_are_printable_ascii (w : W) (p : str) (r : response) :
  In r (sent (serve w p)) ->
  Forall printable (body r)
  /\ In ("Content-Length" : str, Py.str_of_int (Z.of_nat (List.length (body r))))
        (headers r).
Proof.
  destruct (sent_one_json_response w p) as [code [obj E]].
  rewrite E. intros [<-|[]]. split.
  - apply dumps_printable.
  - simpl. right. now left.
Qed.

(** ** The adapter *)

Lemma lstrip_by_last (p : ascii -> bool) (s r : str) (c : ascii) :
  Py.lstrip_by p s = r ++ [c] -> exists a, s = a ++ [c].
Proof.
  intros H. destruct (lstrip_by_split p s) as [a [E _]].
  exists (a ++ r). rewrite E at 1. rewrite H. now rewrite app_assoc.
Qed.

(** X12: the text [run] returns has no white space at either end: the
    newline that ends the output of the utility never reaches the parsers
    or the error messages. *)
Theorem run_output_stripped (cmd : list str) (s s' : state) (out : str) :
  run cmd s = (Ok out, s') ->
  (forall c r, out = c :: r -> Py.isspace c = false)
  /\ (forall r c, out = r ++ [c] -> Py.isspace c = false).
Proof.
  intros H.
  destruct (run_cases cmd s)
    as [(text & err & w1 & E & R) | (r & w1 & E & F & R)];
    rewrite R in H; [|discriminate].
  injection H as <- _. unfold Py.strip. split.
  - intros c r Hc. now apply lstrip_by_head in Hc.
  - intros r c Hc. apply lstrip_by_last in Hc as [a Ha].
    now apply rstrip_by_last in Ha.
Qed.

(** X13: a volume that [get_volume] returns is never negative, in whatever
    state it is called and whatever the mixer reports. *)
Theorem get_volume_never_negative (s : state) (v : Z) :
  fst (get_volume s) = Ok v -> 0 <= v.
Proof.
  unfold get_volume, bind at 1.
  step_run; [|discriminate].
  destruct (Re.search volume_re (Py.strip out)) as [m|] eqn:Em; [|discriminate].
  apply search_volume_first in Em.
  destruct Em as [pre [ws [ds [post [[[_ [_ [Hne Hds]]] _] ->]]]]].
  unfold int_of_str. change (Re.group [ds] 1) with ds.
  rewrite (int_of_digits ds Hds Hne). simpl. intros H. injection H as <-.
  now apply decimal_value_nonneg_from.
Qed.

(** ** Configuration *)


(** ** Setting, then reading *)


End Server.

(** * Instances on the stand-in mixer *)

(** The scenarios of the specification. *)
Example scenario_read :
  sent (serve Fake.pactl Fake.sink Fake.repr (Fake.Mixer 50 false) "/api/volume")
  = [json_response 200 [ ("volume" : str, Json.JInt 50);
                         ("mute" : str, Json.JBool false) ]].
Proof. reflexivity. Qed.

Example scenario_aux0 :
  fst (get_volume (Fake.saying "Volume: aux0: 32768 /  50% / ...")
         Fake.sink Fake.repr (start tt))
  = Ok 50
  /\ serve (Fake.saying "Volume: aux0: 32768 /  50% / ...")
           Fake.sink Fake.repr tt "/api/mute"
     = State tt
         [([ "pactl" : str; "get-sink-mute" : str; Fake.sink ],
           Exited 0 "Volume: aux0: 32768 /  50% / ..." "")]
         [json_response 200 [ ("mute" : str, Json.JBool false) ]].
Proof. split; reflexivity. Qed.

Example scenario_clamp :
  serve Fake.pactl Fake.sink Fake.repr (Fake.Mixer 50 false) "/api/volume/150"
  = State (Fake.Mixer 100 false)
      [([ "pactl" : str; "set-sink-volume" : str; Fake.sink; "100%" : str ],
        Exited 0 "" "")]
      [json_response 200 [ ("volume" : str, Json.JInt 100) ]].
Proof. reflexivity. Qed.

Example scenario_mute_maybe :
  serve Fake.pactl Fake.sink Fake.repr (Fake.Mixer 50 true) "/api/mute/maybe"
  = State (Fake.Mixer 50 false)
      [([ "pactl" : str; "set-sink-mute" : str; Fake.sink; "0" : str ],
        Exited 0 "" "")]
      [json_response 200 [ ("mute" : str, Json.JBool false) ]].
Proof. reflexivity. Qed.

Example scenario_not_found_body :
  map body (sent (serve Fake.pactl Fake.sink Fake.repr (Fake.Mixer 50 false)
                    "/unknown/path"))
  = [ "{" ++ [Json.quote] ++ "error" ++ [Json.quote] ++ ":"
          ++ [Json.quote] ++ "not found" ++ [Json.quote] ++ "}" ].
Proof. reflexivity. Qed.

Example scenario_absent :
  sent (serve Fake.absent Fake.sink Fake.repr (Fake.Mixer 50 false) "/api/mute")
  = [json_response 500
       [ ("error" : str,
          Json.JStr "[Errno 2] No such file or directory: 'pactl'") ]].
Proof. reflexivity. Qed.

Example scenario_unparsable :
  serve (Fake.saying "no sink") Fake.sink Fake.repr tt "/api/volume"
  = State tt
      [([ "pactl" : str; "get-sink-volume" : str; Fake.sink ],
        Exited 0 "no sink" "")]
      [json_response 500
         [ ("error" : str, Json.JStr "Could not parse volume: 'no sink'") ]].
Proof. reflexivity. Qed.

Example scenario_negative :
  mixer (serve Fake.pactl Fake.sink Fake.repr (Fake.Mixer 50 false)
           "/api/volume/-3")
  = Fake.Mixer 0 false.
Proof. reflexivity. Qed.

(** C1: the mixer can report a level above 100 per cent, and [get_volume]
    then returns it as it is: for the report of 150 per cent it returns 150,
    outside the range 0..100 its documentation promises. *)
Theorem get_volume_above_100 :
  Fake.pactl [ "pactl" : str; "get-sink-volume" : str; Fake.sink ]
             (Fake.Mixer 150 false)
  = (Exited 0 ("Volume: front-left: 98304 /  150% / -18.06 dB" ++ [Py.newline]) "",
     Fake.Mixer 150 false)
  /\ fst (get_volume Fake.pactl Fake.sink Fake.repr (start (Fake.Mixer 150 false)))
     = Ok 150
  /\ ~ (0 <= 150 <= 100).
Proof. split; [reflexivity|]. split; [reflexivity|lia]. Qed.

(** A token whose left context has no slash is the first one. *)
Lemma first_token_after_no_slash (text pre ws ds post : str) :
  ~ In "/"%char pre -> token_at text pre ws ds post ->
  first_token text pre ws ds post.
Proof.
  intros Hpre Ht. split; [exact Ht|].
  intros pre' ws' ds' post' [Ht' _]. destruct Ht as [Ht _].
  rewrite Ht in Ht'. apply app_eq_app in Ht'.
  destruct Ht' as [l [[E1 E2] | [-> _]]].
  - destruct l as [|c l].
    + rewrite E1, app_nil_r. lia.
    + simpl in E2. injection E2 as <- _. exfalso. apply Hpre.
      rewrite E1. apply in_or_app. right. now left.
  - rewrite length_app. lia.
Qed.

(** ** Instances of the theorems *)

Lemma set_volume_clamps_witness :
  fst (set_volume Fake.pactl Fake.sink 150 (start (Fake.Mixer 50 false)))
  = Ok 100.
Proof.
  destruct (set_volume_clamps Fake.pactl Fake.sink (Fake.Mixer 50 false) 150)
    as [_ [_ [_ [H _]]]].
  apply (H "" ""). reflexivity.
Defined.


Lemma get_mute_yes_witness :
  exists b,
    fst (get_mute Fake.pactl Fake.sink (start (Fake.Mixer 50 true))) = Ok b
    /\ (b = true <-> occurs_ignoring_case "yes" (Fake.mute_report true)).
Proof.
  exact (get_mute_yes Fake.pactl Fake.sink (Fake.Mixer 50 true)
           (Fake.Mixer 50 true) (Fake.mute_report true) "" eq_refl).
Defined.

Lemma mute_route_tokens_witness :
  sent (serve Fake.pactl Fake.sink Fake.repr (Fake.Mixer 50 false)
          "/api/mute/yes/")
  = [json_response 200 [ ("mute" : str, Json.JBool true) ]].
Proof.
  destruct (mute_route_tokens Fake.pactl Fake.sink Fake.repr
              (Fake.Mixer 50 false) "/api/mute/yes/" "/api/mute/yes" "yes")
    as [b [Hb [_ [_ Hs]]]].
  - apply rstrip_stripped. reflexivity.
  - exists "yes". reflexivity.
  - split; [exists "/api/mute"; reflexivity|]. simpl. intuition discriminate.
  - assert (b = true) as -> by (apply Hb; right; right; reflexivity).
    apply (Hs "" ""). reflexivity.
Defined.



Lemma volume_round_trip_witness :
  fst (get_volume Fake.pactl Fake.sink Fake.repr
         (snd (set_volume Fake.pactl Fake.sink 50 (start (Fake.Mixer 20 true)))))
  = Ok 50.
Proof.
  apply (volume_round_trip Fake.pactl Fake.sink Fake.repr
           (Fake.Mixer 20 true) (Fake.Mixer 50 true) (Fake.Mixer 50 true) 50
           "" "" (Fake.volume_report 50) ""
           "Volume: front-left: 32768 " "  " (" / -18.06 dB" ++ [Py.newline])).
  - lia.
  - reflexivity.
  - reflexivity.
  - apply first_token_after_no_slash.
    + simpl. intuition discriminate.
    + split; [reflexivity|]. split; [repeat constructor|].
      split; [discriminate | repeat constructor].
Defined.

Lemma unmatched_route_404_witness :
  serve Fake.pactl Fake.sink Fake.repr (Fake.Mixer 50 false) "/unknown/path/"
  = State (Fake.Mixer 50 false) []
      [json_response 404 [ ("error" : str, Json.JStr "not found") ]].
Proof.
  apply (unmatched_route_404 Fake.pactl Fake.sink Fake.repr
           (Fake.Mixer 50 false) "/unknown/path/" "/unknown/path").
  - apply rstrip_stripped. reflexivity.
  - discriminate.
  - discriminate.
  - intros [r H]. discriminate.
  - intros [r H]. discriminate.
Defined.

Lemma bad_volume_parameter_witness :
  serve Fake.pactl Fake.sink Fake.repr (Fake.Mixer 50 false) "/api/volume/abc"
  = State (Fake.Mixer 50 false) []
      [json_response 500
         [ ("error" : str,
            Json.JStr "invalid literal for int() with base 10: 'abc'") ]].
Proof.
  apply (bad_volume_parameter Fake.pactl Fake.sink Fake.repr
           (Fake.Mixer 50 false) "/api/volume/abc" "/api/volume/abc" "abc").
  - apply rstrip_stripped. reflexivity.
  - exists "abc". reflexivity.
  - split; [exists "/api/volume"; reflexivity|]. simpl. intuition discriminate.
  - reflexivity.
Defined.

(** ** Instances of the further properties *)

Lemma not_found_iff_unmatched_witness :
  (exists r,
      In r (sent (serve Fake.pactl Fake.sink Fake.repr (Fake.Mixer 50 false)
                    "/api/volumes/"))
      /\ status r = 404)
  <-> ~ route_matched "/api/volumes".
Proof.
  apply (not_found_iff_unmatched Fake.pactl Fake.sink Fake.repr
           (Fake.Mixer 50 false) "/api/volumes/" "/api/volumes").
  apply rstrip_stripped. reflexivity.
Defined.

Lemma ok_means_calls_succeeded_witness :
  Forall (fun co => exists out err, snd co = Exited 0 out err)
         (calls (serve Fake.pactl Fake.sink Fake.repr (Fake.Mixer 50 false)
                   "/api/volume")).
Proof.
  apply (ok_means_calls_succeeded Fake.pactl Fake.sink Fake.repr
           (Fake.Mixer 50 false) "/api/volume"
           (json_response 200 [ ("volume" : str, Json.JInt 50);
                                ("mute" : str, Json.JBool false) ])).
  - left. reflexivity.
  - reflexivity.
Defined.


Lemma read_volume_stops_at_failure_witness :
  exists msg,
    serve Fake.hung Fake.sink Fake.repr (Fake.Mixer 50 false) "/api/volume"
    = State (Fake.Mixer 50 false)
        [([ "pactl" : str; "get-sink-volume" : str; Fake.sink ], TimedOut)]
        [json_response 500 [ ("error" : str, Json.JStr msg) ]].
Proof.
  apply (read_volume_stops_at_failure Fake.hung Fake.sink Fake.repr
           (Fake.Mixer 50 false) (Fake.Mixer 50 false) "/api/volume" TimedOut).
  - apply rstrip_stripped. reflexivity.
  - reflexivity.
  - left. exact I.
Defined.

Lemma read_mute_route_witness :
  exists b : bool,
    (b = true <-> occurs_ignoring_case "yes" (Fake.mute_report false))
    /\ serve Fake.pactl Fake.sink Fake.repr (Fake.Mixer 50 false) "/api/mute"
       = State (Fake.Mixer 50 false)
           [([ "pactl" : str; "get-sink-mute" : str; Fake.sink ],
             Exited 0 (Fake.mute_report false) "")]
           [json_response 200 [ ("mute" : str, Json.JBool b) ]].
Proof.
  apply (read_mute_route Fake.pactl Fake.sink Fake.repr
           (Fake.Mixer 50 false) (Fake.Mixer 50 false) "/api/mute"
           (Fake.mute_report false) "").
  - apply rstrip_stripped. reflexivity.
  - reflexivity.
Defined.

Lemma parameter_never_empty_witness :
  exists seg,
    final_segment "/api/mute/yes" seg /\ seg <> []
    /\ Py.last_item (Py.split "/" "/api/mute/yes") = seg.
Proof.
  apply (parameter_never_empty "/api/mute/yes//" "/api/mute/yes").
  - apply rstrip_stripped. reflexivity.
  - right. exists "yes". reflexivity.
Defined.

Lemma bodies_are_printable_ascii_witness :
  Forall printable
         (body (json_response 500
                  [ ("error" : str,
                     Json.JStr "[Errno 2] No such file or directory: 'pactl'") ]))
  /\ In ("Content-Length" : str, "56" : str)
        (headers (json_response 500
                    [ ("error" : str,
                       Json.JStr "[Errno 2] No such file or directory: 'pactl'") ])).
Proof.
  apply (bodies_are_printable_ascii Fake.absent Fake.sink Fake.repr
           (Fake.Mixer 50 false) "/api/mute").
  left. reflexivity.
Defined.

Lemma run_output_stripped_witness :
  (forall c r, ("Mute: yes" : str) = c :: r -> Py.isspace c = false)
  /\ (forall r c, ("Mute: yes" : str) = r ++ [c] -> Py.isspace c = false).
Proof.
  apply (run_output_stripped Fake.pactl
           [ "pactl" : str; "get-sink-mute" : str; Fake.sink ]
           (start (Fake.Mixer 50 true))
           (State (Fake.Mixer 50 true)
              [([ "pactl" : str; "get-sink-mute" : str; Fake.sink ],
                Exited 0 (Fake.mute_report true) "")] [])).
  reflexivity.
Defined.

Lemma get_volume_never_negative_witness : 0 <= 150.
Proof.
  apply (get_volume_never_negative Fake.pactl Fake.sink Fake.repr
           (start (Fake.Mixer 150 false)) 150).
  reflexivity.
Defined.



